(** * PWA Task Manager: the task reconciliation of app.js against server.js

    A shallow embedding of the two programs of the repository that hold task
    data: the Express server ([server.js], module [Server]) with its
    in-memory list [TASKS] and counter [NEXT_ID], and the browser client
    ([public/app.js], module [Client]) with its IndexedDB object store and
    the three-phase [syncPendingTasks].

    Conventions of the embedding.
    - JavaScript numbers that hold identifiers and timestamps are integers
      ([Z]); the rounding of doubles beyond 2^53 is not represented.
    - Strings are byte strings that hold the UTF-8 encoding of the text;
      [trim] strips the white space and line terminators of JavaScript,
      those beyond ASCII included.
    - The JSON bodies of POST and PUT /api/tasks hold arbitrary JSON values
      ([Js.Value]); a property may be absent ([None]).  A handler that
      throws is answered by the error handler of server.js with status 500;
      what it had assigned before stays assigned.
    - A response that the client reads has a status and a body that is not
      JSON, is [null], or carries the properties the client reads.
    - The requests of IndexedDB succeed.
    - [Date.now()] is an input of each server handler and a reading of the
      environment on the client.
    - An absent [dirty] or [deleted] property is falsy and is [false] here;
      an [id] or [_localId] that is [null] or [undefined] is [None]. *)

From Stdlib Require Import ZArith List String Ascii Bool Lia.
From Stdlib Require Import DecimalString DecimalZ DecimalPos.
From Stdlib Require Import Permutation Sorted.
Import ListNotations.
Local Open Scope string_scope.
Local Open Scope Z_scope.
Local Open Scope list_scope.

(** ** JavaScript built-ins used by both programs *)
Module Js.

(** White space and line terminators of one byte: TAB, LF, VT, FF, CR and
    the space. *)
Definition is_space (a : ascii) : bool :=
  let n := nat_of_ascii a in
  ((9 <=? n) && (n <=? 13))%nat || (n =? 32)%nat.

(** The white space of two bytes: U+00A0. *)
Definition is_space2 (a b : ascii) : bool :=
  ((nat_of_ascii a =? 194) && (nat_of_ascii b =? 160))%nat.

(** The white space and line terminators of three bytes: U+1680,
    U+2000 to U+200A, U+2028, U+2029, U+202F, U+205F, U+3000 and U+FEFF. *)
Definition is_space3 (a b c : ascii) : bool :=
  let x := nat_of_ascii a in
  let y := nat_of_ascii b in
  let z := nat_of_ascii c in
  ((x =? 225) && (y =? 154) && (z =? 128)
   || (x =? 226) && (y =? 128)
      && ((128 <=? z) && (z <=? 138) || (z =? 168) || (z =? 169) || (z =? 175))
   || (x =? 226) && (y =? 129) && (z =? 159)
   || (x =? 227) && (y =? 128) && (z =? 128)
   || (x =? 239) && (y =? 187) && (z =? 191))%nat.

(** [s.trimStart()]: the white-space characters at the head are dropped,
    whatever their length in bytes. *)
Fixpoint trimStart (s : string) : string :=
  match s with
  | EmptyString => EmptyString
  | String a r =>
      if is_space a then trimStart r
      else match r with
           | EmptyString => s
           | String b r1 =>
               if is_space2 a b then trimStart r1
               else match r1 with
                    | EmptyString => s
                    | String c r2 => if is_space3 a b c then trimStart r2 else s
                    end
           end
  end.

(** [s.trimEnd()]: the longest tail made of white-space characters is
    dropped. *)
Fixpoint trimEnd (s : string) : string :=
  match s with
  | EmptyString => EmptyString
  | String a r =>
      match trimStart s with
      | EmptyString => EmptyString
      | _ => String a (trimEnd r)
      end
  end.

Definition trim (s : string) : string := trimEnd (trimStart s).

(** [s.startsWith(p)] *)
Fixpoint startsWith (s p : string) {struct p} : bool :=
  match p with
  | EmptyString => true
  | String b p' =>
      match s with
      | EmptyString => false
      | String a s' => Ascii.eqb a b && startsWith s' p'
      end
  end.

(** Truthiness of a string: the empty string is falsy. *)
Definition truthy_string (s : string) : bool := negb (String.eqb s "").

(** A JSON value, as [JSON.parse] and [bodyParser.json()] yield it: an
    array or object is opaque. *)
Inductive Value :=
| JNull
| JBool (b : bool)
| JNum (n : Z)
| JStr (s : string)
| JObj (text : string).

(** Truthiness: [null], [false], [0] and the empty string are falsy. *)
Definition truthy (v : Value) : bool :=
  match v with
  | JNull => false
  | JBool b => b
  | JNum n => negb (n =? 0)
  | JStr s => truthy_string s
  | JObj _ => true
  end.

(** [v.trim()]: [None] is the TypeError thrown when [v] is not a string
    ([null] has no properties, the other values have no [trim]). *)
Definition trim_of (v : Value) : option string :=
  match v with
  | JStr s => Some (trim s)
  | _ => None
  end.

(** [String(n)] of an integer, as a template literal prints it: all its
    digits.  This is what JavaScript prints below 10^21 in magnitude; from
    there on it prints in exponent notation, which is not represented, so
    statements about the digits of a number carry that bound. *)
Definition toString (n : Z) : string := NilZero.string_of_int (Z.to_int n).

(** [s.split('_')]: the pieces between underscores. *)
Fixpoint split_underscore (s : string) : list string :=
  match s with
  | EmptyString => [EmptyString]
  | String a r =>
      if Ascii.eqb a "_"%char then EmptyString :: split_underscore r
      else match split_underscore r with
           | [] => [String a EmptyString]
           | p :: ps => String a p :: ps
           end
  end.

Definition digit_value (a : ascii) : option Z :=
  let n := nat_of_ascii a in
  if ((48 <=? n) && (n <=? 57))%nat then Some (Z.of_nat n - 48) else None.

Definition hex_value (a : ascii) : option Z :=
  let n := nat_of_ascii a in
  if ((48 <=? n) && (n <=? 57))%nat then Some (Z.of_nat n - 48)
  else if ((97 <=? n) && (n <=? 102))%nat then Some (Z.of_nat n - 87)
  else if ((65 <=? n) && (n <=? 70))%nat then Some (Z.of_nat n - 55)
  else None.

(** The longest run of digits at the head of [s], read in the given radix
    with [acc] in front; [any] tells whether a digit was seen. *)
Fixpoint digits (radix : Z) (value : ascii -> option Z) (s : string)
    (acc : Z) (any : bool) : option Z :=
  match s with
  | EmptyString => if any then Some acc else None
  | String a r =>
      match value a with
      | Some d => digits radix value r (radix * acc + d) true
      | None => if any then Some acc else None
      end
  end.

(** The number after the sign: hexadecimal after [0x], decimal otherwise. *)
Definition unsigned (s : string) : option Z :=
  match s with
  | String "0" (String "x" r) => digits 16 hex_value r 0 false
  | String "0" (String "X" r) => digits 16 hex_value r 0 false
  | _ => digits 10 digit_value s 0 false
  end.

(** [parseInt(s)]: leading white space, an optional sign, then the digits;
    [None] is NaN.  [parseInt(undefined)] is NaN as well. *)
Definition parseInt (s : option string) : option Z :=
  match s with
  | None => None
  | Some s =>
      match trimStart s with
      | String "-" r => option_map Z.opp (unsigned r)
      | String "+" r => unsigned r
      | r => unsigned r
      end
  end.

End Js.

(** ** server.js *)
Module Server.

(** An element of [TASKS].  [title] and [description] are strings and
    [completed] is a boolean in every task that POST and PUT /api/tasks
    write; [location] and [photo] hold whatever value the body had. *)
Record Task := mkTask {
  id : Z;
  title : string;
  description : string;
  completed : bool;
  location : Js.Value;
  photo : Js.Value;
  createdAt : Z;
  updatedAt : Z
}.

(** [req.body] of POST and PUT /api/tasks: the five properties the
    handlers read, each absent ([None], [undefined] in the handler) or any
    JSON value. *)
Record Body := mkBody {
  b_title : option Js.Value;
  b_description : option Js.Value;
  b_completed : option Js.Value;
  b_location : option Js.Value;
  b_photo : option Js.Value
}.

(** An element of [req.body.tasks] of POST /api/sync, with its texts, flag
    and numbers typed as a client would send them. *)
Record Incoming := mkIncoming {
  in_localId : option string;
  in_id : option Z;
  in_title : option string;
  in_description : option string;
  in_completed : option bool;
  in_location : option Js.Value;
  in_photo : option Js.Value;
  in_createdAt : option Z
}.

(** The two module-level variables of the data store. *)
Record State := mkState {
  TASKS : list Task;
  NEXT_ID : Z
}.

Inductive Request :=
| GetHome
| GetTasks
| PostTask (body : Body)
| PutTask (param : option Z) (body : Body)
| DeleteTask (param : option Z)
| DeleteAll
| PostSync (tasks : option (list Incoming)).

(** What a handler sends; the HTTP status is [status_of]. *)
Inductive Reply :=
| Home (tasks : list Task)
| Listed (tasks : list Task) (count : nat) (timestamp : Z)
| Created (task : Task)
| Updated (task : Task)
| Failed (status : Z) (error : string)
| Deleted (deleted : bool)
| Cleared (deleted : nat)
| Synced (created updated : list Task) (mapping : list (string * Z))
         (serverTasks : list Task).

Definition status_of (r : Reply) : Z :=
  match r with
  | Created _ => 201
  | Failed s _ => s
  | _ => 200
  end.

(** The [ok] property of the JSON body. *)
Definition ok_of (r : Reply) : bool :=
  match r with
  | Failed _ _ => false
  | _ => true
  end.

(** The store at start-up; [t0] is [Date.now()] at that moment. *)
Definition init (t0 : Z) : State :=
  {| TASKS :=
       [ mkTask 1 "Comprar leche" "Leche entera 1L" false Js.JNull Js.JNull
                (t0 - 3600000) (t0 - 3600000);
         mkTask 2 "Enviar reporte" "Reporte semanal al equipo" false
                Js.JNull Js.JNull (t0 - 7200000) (t0 - 7200000) ];
     NEXT_ID := 2 + 1 |}.

(** [TASKS.sort((a, b) => b.createdAt - a.createdAt)]: a stable sort, newest
    first.  The sort is in place: the handlers that call it store the sorted
    list back. *)
Fixpoint insert_newest (t : Task) (l : list Task) : list Task :=
  match l with
  | [] => [t]
  | u :: r => if createdAt u <=? createdAt t then t :: l
              else u :: insert_newest t r
  end.

Fixpoint sort_newest (l : list Task) : list Task :=
  match l with
  | [] => []
  | t :: r => insert_newest t (sort_newest r)
  end.

(** [TASKS.find(t => t.id === id)]; the parameter is [None] when
    [Number(...)] is not an integer, which no task id equals. *)
Definition find_task (param : option Z) (l : list Task) : option Task :=
  match param with
  | None => None
  | Some i => find (fun t => id t =? i) l
  end.

(** Assignment to properties of the object that [find] returned: the first
    task with that id is replaced in the list. *)
Fixpoint mutate (i : Z) (f : Task -> Task) (l : list Task) : list Task :=
  match l with
  | [] => []
  | t :: r => if id t =? i then f t :: r else t :: mutate i f r
  end.

(** [v || null] *)
Definition or_null (v : option Js.Value) : Js.Value :=
  match v with
  | Some x => if Js.truthy x then x else Js.JNull
  | None => Js.JNull
  end.

(** [!!v] *)
Definition to_boolean (v : option Js.Value) : bool :=
  match v with
  | Some x => Js.truthy x
  | None => false
  end.

(** What the error handler at the end of server.js sends when a handler
    throws. *)
Definition server_error : Reply := Failed 500 "Error interno del servidor".

Definition get_home (s : State) : State * Reply :=
  let sorted := sort_newest (TASKS s) in
  ({| TASKS := sorted; NEXT_ID := NEXT_ID s |}, Home sorted).

Definition get_api_tasks (now : Z) (s : State) : State * Reply :=
  let sorted := sort_newest (TASKS s) in
  ({| TASKS := sorted; NEXT_ID := NEXT_ID s |},
   Listed sorted (List.length sorted) now).

(** [description ? description.trim() : ''] in the object literal of POST
    /api/tasks; [None] when [.trim()] throws. *)
Definition description_of (v : option Js.Value) : option string :=
  match v with
  | Some d => if Js.truthy d then Js.trim_of d else Some ""
  | None => Some ""
  end.

(** POST /api/tasks.  A title that is truthy and not a string makes the
    test [title.trim() === ''] throw.  In the object literal [NEXT_ID++]
    comes before the two [.trim()]: when the one of the description throws,
    the counter has moved and no task is pushed. *)
Definition post_api_tasks (now : Z) (s : State) (b : Body) : State * Reply :=
  match b_title b with
  | None => (s, Failed 400 "El título es requerido")
  | Some t =>
      if negb (Js.truthy t) then (s, Failed 400 "El título es requerido")
      else
        match Js.trim_of t with
        | None => (s, server_error)
        | Some trimmed =>
            if String.eqb trimmed ""
            then (s, Failed 400 "El título es requerido")
            else
              match description_of (b_description b) with
              | None =>
                  ({| TASKS := TASKS s; NEXT_ID := NEXT_ID s + 1 |}, server_error)
              | Some text =>
                  let task :=
                    {| id := NEXT_ID s;
                       title := trimmed;
                       description := text;
                       completed := to_boolean (b_completed b);
                       location := or_null (b_location b);
                       photo := or_null (b_photo b);
                       createdAt := now;
                       updatedAt := now |} in
                  ({| TASKS := TASKS s ++ [task]; NEXT_ID := NEXT_ID s + 1 |},
                   Created task)
              end
        end
  end.

Definition set_title (x : string) (t : Task) : Task :=
  {| id := id t; title := x; description := description t;
     completed := completed t; location := location t; photo := photo t;
     createdAt := createdAt t; updatedAt := updatedAt t |}.

Definition set_description (x : string) (t : Task) : Task :=
  {| id := id t; title := title t; description := x;
     completed := completed t; location := location t; photo := photo t;
     createdAt := createdAt t; updatedAt := updatedAt t |}.

(** [if (typeof v !== 'undefined') task.p = v.trim()]; [None] when
    [.trim()] throws. *)
Definition assign_text (v : option Js.Value) (set : string -> Task -> Task)
    (t : Task) : option Task :=
  match v with
  | None => Some t
  | Some x => match Js.trim_of x with
              | Some text => Some (set text t)
              | None => None
              end
  end.

(** The assignments that follow the two texts in PUT /api/tasks/:id; none
    of them throws. *)
Definition assign_rest (now : Z) (b : Body) (t : Task) : Task :=
  {| id := id t;
     title := title t;
     description := description t;
     completed := match b_completed b with
                  | Some x => Js.truthy x | None => completed t end;
     location := match b_location b with Some x => x | None => location t end;
     photo := match b_photo b with Some x => x | None => photo t end;
     createdAt := createdAt t;
     updatedAt := now |}.

(** The assignments of PUT /api/tasks/:id to the task it found, in the
    order of the statements: the task as they leave it, and whether they
    ran to the end ([false]: a [.trim()] threw and the later statements
    were not executed). *)
Definition apply_body (now : Z) (b : Body) (t : Task) : Task * bool :=
  match assign_text (b_title b) set_title t with
  | None => (t, false)
  | Some t1 =>
      match assign_text (b_description b) set_description t1 with
      | None => (t1, false)
      | Some t2 => (assign_rest now b t2, true)
      end
  end.

Definition put_api_tasks (now : Z) (s : State) (param : option Z) (b : Body)
  : State * Reply :=
  match find_task param (TASKS s) with
  | None => (s, Failed 404 "Tarea no encontrada")
  | Some task =>
      ({| TASKS := mutate (id task) (fun t => fst (apply_body now b t)) (TASKS s);
          NEXT_ID := NEXT_ID s |},
       if snd (apply_body now b task)
       then Updated (fst (apply_body now b task))
       else server_error)
  end.

Definition delete_api_task (s : State) (param : option Z) : State * Reply :=
  let initialLength := List.length (TASKS s) in
  let kept := match param with
              | None => TASKS s
              | Some i => filter (fun t => negb (id t =? i)) (TASKS s)
              end in
  ({| TASKS := kept; NEXT_ID := NEXT_ID s |},
   Deleted (List.length kept <? initialLength)%nat).

Definition delete_api_tasks (s : State) : State * Reply :=
  ({| TASKS := []; NEXT_ID := NEXT_ID s |}, Cleared (List.length (TASKS s))).

(** The accumulators of the [forEach] of POST /api/sync.  [created] and
    [updated] hold references to task objects, which a later element of the
    same request may still assign to; they are kept as ids here and read
    from [TASKS] when the reply is built. *)
Record SyncAcc := mkSyncAcc {
  acc_state : State;
  acc_created : list Z;
  acc_updated : list Z;
  acc_mapping : list (string * Z)
}.

Definition truthy_localId (v : option string) : bool :=
  match v with Some l => Js.truthy_string l | None => false end.

Definition truthy_id (v : option Z) : bool :=
  match v with Some i => negb (i =? 0) | None => false end.

Definition new_from_incoming (now : Z) (next : Z) (task : Incoming) : Task :=
  {| id := next;
     title := match in_title task with
              | Some x => if Js.truthy_string x then x else "Sin título"
              | None => "Sin título"
              end;
     description := match in_description task with Some x => x | None => "" end;
     completed := match in_completed task with Some c => c | None => false end;
     location := or_null (in_location task);
     photo := or_null (in_photo task);
     createdAt := match in_createdAt task with
                  | Some c => if c =? 0 then now else c
                  | None => now
                  end;
     updatedAt := now |}.

Definition merge_incoming (now : Z) (task : Incoming) (existing : Task) : Task :=
  {| id := id existing;
     title := match in_title task with Some x => x | None => title existing end;
     description := match in_description task with
                    | Some x => x | None => description existing end;
     completed := match in_completed task with
                  | Some x => x | None => completed existing end;
     location := match in_location task with
                 | Some x => x | None => location existing end;
     photo := match in_photo task with Some x => x | None => photo existing end;
     createdAt := createdAt existing;
     updatedAt := now |}.

(** The body of [incoming.forEach(task => ...)]. *)
Definition sync_one (now : Z) (a : SyncAcc) (task : Incoming) : SyncAcc :=
  let s := acc_state a in
  if truthy_localId (in_localId task) && negb (truthy_id (in_id task)) then
    let newTask := new_from_incoming now (NEXT_ID s) task in
    {| acc_state := {| TASKS := TASKS s ++ [newTask]; NEXT_ID := NEXT_ID s + 1 |};
       acc_created := acc_created a ++ [id newTask];
       acc_updated := acc_updated a;
       acc_mapping := acc_mapping a ++
         [(match in_localId task with Some l => l | None => "" end, id newTask)] |}
  else if truthy_id (in_id task) then
    match find_task (in_id task) (TASKS s) with
    | Some existing =>
        {| acc_state := {| TASKS := mutate (id existing) (merge_incoming now task)
                                           (TASKS s);
                           NEXT_ID := NEXT_ID s |};
           acc_created := acc_created a;
           acc_updated := acc_updated a ++ [id existing];
           acc_mapping := acc_mapping a |}
    | None => a
    end
  else a.

Definition resolve (l : list Task) (ids : list Z) : list Task :=
  flat_map (fun i => match find (fun t => id t =? i) l with
                     | Some t => [t] | None => [] end) ids.

Definition post_api_sync (now : Z) (s : State) (tasks : option (list Incoming))
  : State * Reply :=
  let incoming := match tasks with Some l => l | None => [] end in
  let a := fold_left (sync_one now) incoming (mkSyncAcc s [] [] []) in
  let s' := acc_state a in
  (s', Synced (resolve (TASKS s') (acc_created a))
              (resolve (TASKS s') (acc_updated a))
              (acc_mapping a) (TASKS s')).

(** One request served at time [now]. *)
Definition handle (now : Z) (s : State) (r : Request) : State * Reply :=
  match r with
  | GetHome => get_home s
  | GetTasks => get_api_tasks now s
  | PostTask b => post_api_tasks now s b
  | PutTask p b => put_api_tasks now s p b
  | DeleteTask p => delete_api_task s p
  | DeleteAll => delete_api_tasks s
  | PostSync l => post_api_sync now s l
  end.

(** The ids that a reply reports as newly assigned. *)
Definition created_ids (r : Reply) : list Z :=
  match r with
  | Created t => [id t]
  | Synced created _ _ _ => map id created
  | _ => []
  end.

(** A session: requests served one after the other, each with its time;
    the result carries the ids assigned along the way, oldest first. *)
Fixpoint run (s : State) (reqs : list (Z * Request)) : State * list Z :=
  match reqs with
  | [] => (s, [])
  | (now, r) :: rest =>
      let '(s1, reply) := handle now s r in
      let '(s2, ids) := run s1 rest in
      (s2, created_ids reply ++ ids)
  end.

End Server.

(** ** public/app.js *)
Module Client.

(** A record of the object store [tasks]; [clientId] is its key path.
    [id] is present on records spread from a server task. *)
Record Task := mkTask {
  clientId : string;
  id : option Z;
  _localId : option string;
  title : string;
  description : string;
  completed : bool;
  location : Js.Value;
  photo : Js.Value;
  createdAt : Z;
  updatedAt : Z;
  dirty : bool;
  deleted : bool
}.

(** *** The object store

    An IndexedDB object store keeps one record per key, in key order. *)
Definition Store := list Task.

Fixpoint store_get (k : string) (s : Store) : option Task :=
  match s with
  | [] => None
  | t :: r => if String.eqb (clientId t) k then Some t else store_get k r
  end.

Definition store_delete (k : string) (s : Store) : Store :=
  filter (fun t => negb (String.eqb (clientId t) k)) s.

(** The place of a new record: before the first record with a larger key. *)
Fixpoint store_insert (t : Task) (s : Store) : Store :=
  match s with
  | [] => [t]
  | u :: r => if String.ltb (clientId t) (clientId u) then t :: s
              else u :: store_insert t r
  end.

(** [store.put(t)]: the record with the key of [t], if any, is replaced. *)
Definition store_put (t : Task) (s : Store) : Store :=
  store_insert t (store_delete (clientId t) s).

Definition store_getAll (s : Store) : list Task := s.

(** One record per key. *)
Definition store_ok (s : Store) : Prop := NoDup (map clientId s).

(** *** The environment of the page

    The server is reached through [fetch]; a call either rejects (no
    response) or resolves to a response with a status and a body. *)

(** The body of a response, as [response.json()] finds it: not JSON (the
    promise rejects), the value [null], or a value whose properties [A]
    the client goes on to read. *)
Inductive Json (A : Type) :=
| NotJson (message : string)
| JsonNull
| JsonData (data : A).
Arguments NotJson {A} message.
Arguments JsonNull {A}.
Arguments JsonData {A} data.

Inductive Fetch (A : Type) :=
| Rejected (message : string)
| Response (status : Z) (body : Json A).
Arguments Rejected {A} message.
Arguments Response {A} status body.

(** [response.ok] *)
Definition response_ok (status : Z) : bool :=
  (200 <=? status) && (status <=? 299).

(** The properties the client reads from each JSON body. *)
Record CreateData := mkCreateData { cd_ok : bool; cd_task : option Server.Task }.
Record UpdateData := mkUpdateData { ud_ok : bool }.
Record ListData := mkListData { ld_ok : bool; ld_tasks : option (list Server.Task) }.

(** What the page needs from the outside: [navigator.onLine], [Date.now()]
    and the four requests of [syncPendingTasks]. *)
Class Env (W : Type) := {
  onLine : W -> bool;
  now : W -> Z;
  fetch_post : W -> Server.Body -> W * Fetch CreateData;
  fetch_put : W -> option Z -> Server.Body -> W * Fetch UpdateData;
  fetch_delete : W -> option Z -> W * Fetch unit;
  fetch_get : W -> W * Fetch ListData
}.

(** The requests issued, in order, each with the record it was issued for
    and the answer it got. *)
Inductive Call :=
| CallCreate (cid : string) (body : Server.Body) (r : Fetch CreateData)
| CallUpdate (cid : string) (serverId : option Z) (body : Server.Body)
             (r : Fetch UpdateData)
| CallDelete (cid : string) (serverId : option Z) (r : Fetch unit)
| CallList (r : Fetch ListData).

(** The values [syncPendingTasks] throws: its own errors for a page that
    is offline and for a status that is not OK, the rejection of [fetch],
    the rejection of [response.json()], and the TypeError of reading a
    property of [null]. *)
Inductive Error :=
| Offline
| Http (status : Z)
| Network (message : string)
| Syntax (message : string)
| Type_error.

(** *** The rendered list *)
Inductive Badge := BadgeOffline | BadgeSync | BadgeOK.

Record TaskElement := mkElement {
  el_task : Task;
  el_checked : bool;
  el_title : string;
  el_struck : bool;
  el_desc : option string;
  el_badge : Badge;
  el_photo : option Js.Value
}.

Definition createTaskElement (task : Task) : TaskElement :=
  {| el_task := task;
     el_checked := completed task;
     el_title := title task;
     el_struck := completed task;
     el_desc := if Js.truthy_string (description task)
                then Some (description task) else None;
     el_badge := if Js.startsWith (clientId task) "local_" then BadgeOffline
                 else if dirty task then BadgeSync else BadgeOK;
     el_photo := if Js.truthy (photo task) then Some (photo task) else None |}.

(** [.sort((a, b) => b.createdAt - a.createdAt)], stable, newest first. *)
Fixpoint insert_newest (t : Task) (l : list Task) : list Task :=
  match l with
  | [] => [t]
  | u :: r => if createdAt u <=? createdAt t then t :: l
              else u :: insert_newest t r
  end.

Fixpoint sort_newest (l : list Task) : list Task :=
  match l with
  | [] => []
  | t :: r => insert_newest t (sort_newest r)
  end.

(** What [getAllTasksLocal] resolves to: [request.result] without the
    records marked deleted, newest first. *)
Definition visible (s : Store) : list Task :=
  sort_newest (filter (fun t => negb (deleted t)) (store_getAll s)).

(** [{ ...serverTask, clientId }]: the properties of the server task and the
    key; no [dirty], [deleted] or [_localId] of its own. *)
Definition spread (serverTask : Server.Task) (cid : string) : Task :=
  {| clientId := cid;
     id := Some (Server.id serverTask);
     _localId := None;
     title := Server.title serverTask;
     description := Server.description serverTask;
     completed := Server.completed serverTask;
     location := Server.location serverTask;
     photo := Server.photo serverTask;
     createdAt := Server.createdAt serverTask;
     updatedAt := Server.updatedAt serverTask;
     dirty := false;
     deleted := false |}.

(** [`server_${id}`] *)
Definition server_key (i : Z) : string := "server_" ++ Js.toString i.

(** The JSON body of the create and update requests. *)
Definition body_of (task : Task) : Server.Body :=
  {| Server.b_title := Some (Js.JStr (title task));
     Server.b_description := Some (Js.JStr (description task));
     Server.b_completed := Some (Js.JBool (completed task));
     Server.b_location := Some (location task);
     Server.b_photo := Some (photo task) |}.

(** How an async function ends: its promise resolves or rejects. *)
Inductive Outcome (A : Type) :=
| Returned (value : A)
| Thrown (e : Error).
Arguments Returned {A} value.
Arguments Thrown {A} e.

Section Page.

Context {W : Type} `{Env W}.

(** The page: the outside world, the object store, the rendered list and
    the requests issued so far. *)
Record App := mkApp {
  world : W;
  db : Store;
  calls : list Call;
  tasksList : list TaskElement;
  taskCount : nat
}.

Definition set_db (f : Store -> Store) (a : App) : App :=
  {| world := world a; db := f (db a); calls := calls a;
     tasksList := tasksList a; taskCount := taskCount a |}.

Definition called (w : W) (c : Call) (a : App) : App :=
  {| world := w; db := db a; calls := calls a ++ [c];
     tasksList := tasksList a; taskCount := taskCount a |}.

(** *** Async functions: state passing with exceptions *)
Definition M (A : Type) := App -> App * Outcome A.

Definition ret {A} (x : A) : M A := fun a => (a, Returned x).

Definition throw {A} (e : Error) : M A := fun a => (a, Thrown e).

Definition bind {A B} (m : M A) (k : A -> M B) : M B :=
  fun a => match m a with
           | (a1, Returned x) => k x a1
           | (a1, Thrown e) => (a1, Thrown e)
           end.

Definition try_catch {A} (m : M A) (handler : Error -> M A) : M A :=
  fun a => match m a with
           | (a1, Thrown e) => handler e a1
           | r => r
           end.

Definition gets {A} (f : App -> A) : M A := fun a => (a, Returned (f a)).

Definition modify (f : App -> App) : M unit := fun a => (f a, Returned tt).

(** [for (const x of l) { acc = body(x, acc) }]; an iteration that throws
    ends the loop. *)
Fixpoint for_of {A S} (l : list A) (body : A -> S -> M S) (acc : S) : M S :=
  match l with
  | [] => ret acc
  | x :: r => bind (body x acc) (for_of r body)
  end.

Notation "x <- m ;; k" := (bind m (fun x => k))
  (at level 61, m at next level, right associativity).
Notation "' pat <- m ;; k" := (bind m (fun x => match x with pat => k end))
  (at level 61, pat pattern, m at next level, right associativity).
Notation "m ;;; k" := (bind m (fun _ => k))
  (at level 61, right associativity).

(** [await fetch(...)]: the request is issued and recorded; a rejected
    promise is an exception at the [await]. *)
Definition awaited {A} (r : Fetch A) : Outcome (Z * Json A) :=
  match r with
  | Rejected m => Thrown (Network m)
  | Response status body => Returned (status, body)
  end.

(** [const data = await response.json()] and the first read of a property
    of [data], which every caller does next. *)
Definition json {A} (body : Json A) : M A :=
  match body with
  | NotJson m => throw (Syntax m)
  | JsonNull => throw Type_error
  | JsonData data => ret data
  end.

Definition fetch_create (task : Task) : M (Z * Json CreateData) :=
  fun a => let '(w, r) := fetch_post (world a) (body_of task) in
           (called w (CallCreate (clientId task) (body_of task) r) a, awaited r).

Definition fetch_update (task : Task) (serverId : option Z)
  : M (Z * Json UpdateData) :=
  fun a => let '(w, r) := fetch_put (world a) serverId (body_of task) in
           (called w (CallUpdate (clientId task) serverId (body_of task) r) a,
            awaited r).

Definition fetch_remove (task : Task) (serverId : option Z) : M (Z * Json unit) :=
  fun a => let '(w, r) := fetch_delete (world a) serverId in
           (called w (CallDelete (clientId task) serverId r) a, awaited r).

Definition fetch_list : M (Z * Json ListData) :=
  fun a => let '(w, r) := fetch_get (world a) in
           (called w (CallList r) a, awaited r).

(** *** IndexedDB helpers *)

(** [task.dirty = false; task.updatedAt = Date.now()] *)
Definition cleaned (time : Z) (task : Task) : Task :=
  {| clientId := clientId task; id := id task; _localId := _localId task;
     title := title task; description := description task;
     completed := completed task; location := location task;
     photo := photo task; createdAt := createdAt task;
     updatedAt := time; dirty := false; deleted := deleted task |}.

Definition putTaskLocalClean (task : Task) : M unit :=
  time <- gets (fun a => now (world a)) ;;
  modify (set_db (store_put (cleaned time task))).

Definition getAllTasksLocal : M (list Task) :=
  gets (fun a => visible (db a)).

Definition hasPendingSync : M bool :=
  tasks <- getAllTasksLocal ;;
  ret (existsb (fun t => dirty t || deleted t
                         || Js.startsWith (clientId t) "local_") tasks).

(** [task.deleted = true; task.dirty = true; task.updatedAt = Date.now()] *)
Definition tombstoned (time : Z) (task : Task) : Task :=
  {| clientId := clientId task; id := id task; _localId := _localId task;
     title := title task; description := description task;
     completed := completed task; location := location task;
     photo := photo task; createdAt := createdAt task;
     updatedAt := time; dirty := true; deleted := true |}.

Definition deleteTaskLocal (cid : string) : M unit :=
  found <- gets (fun a => store_get cid (db a)) ;;
  match found with
  | None => ret tt
  | Some task =>
      if Js.startsWith cid "server_" then
        time <- gets (fun a => now (world a)) ;;
        modify (set_db (store_put (tombstoned time task)))
      else modify (set_db (store_delete cid))
  end.

Definition replaceLocalWithServer (localClientId : string)
    (serverTask : Server.Task) : M unit :=
  modify (set_db (store_delete localClientId)) ;;;
  modify (set_db (store_put
                    (spread serverTask (server_key (Server.id serverTask))))).

Definition clearAllTasksLocal : M unit := modify (set_db (fun _ => [])).


(** *** Rendering *)
Definition renderTasks : M unit :=
  tasks <- getAllTasksLocal ;;
  modify (fun a => {| world := world a; db := db a; calls := calls a;
                      tasksList := map createTaskElement tasks;
                      taskCount := List.length tasks |}).

(** *** Synchronisation *)

(** The body of the loop of phase 1 (create the [local_] tasks). *)
Definition push_create (task : Task) (syncedCount : nat) : M nat :=
  try_catch
    ('(status, body) <- fetch_create task ;;
     if negb (response_ok status) then throw (Http status)
     else
       data <- json body ;;
       match (if cd_ok data then cd_task data else None) with
       | Some serverTask =>
           replaceLocalWithServer (clientId task) serverTask ;;;
           ret (S syncedCount)
       | None => ret syncedCount
       end)
    (fun err => throw err).

(** [parseInt(task.clientId.split('_')[1])] *)
Definition serverId_of (cid : string) : option Z :=
  Js.parseInt (nth_error (Js.split_underscore cid) 1).

(** The body of the loop of phase 2 (delete or update the [server_] tasks). *)
Definition push_change (task : Task) (syncedCount : nat) : M nat :=
  let serverId := serverId_of (clientId task) in
  if deleted task then
    try_catch
      ('(status, _) <- fetch_remove task serverId ;;
       if response_ok status then
         modify (set_db (store_delete (clientId task))) ;;;
         ret (S syncedCount)
       else ret syncedCount)
      (fun err => throw err)
  else if dirty task then
    try_catch
      ('(status, body) <- fetch_update task serverId ;;
       if negb (response_ok status) then throw (Http status)
       else
         data <- json body ;;
         if ud_ok data then
           putTaskLocalClean task ;;;
           ret (S syncedCount)
         else ret syncedCount)
      (fun err => throw err)
  else ret syncedCount.

(** The body of the merge loop of phase 3. *)
Definition merge_one (serverTask : Server.Task) (_ : unit) : M unit :=
  let cid := server_key (Server.id serverTask) in
  existing <- gets (fun a => store_get cid (db a)) ;;
  if match existing with
     | None => true
     | Some e => negb (dirty e)
     end
  then putTaskLocalClean (spread serverTask cid)
  else ret tt.

(** Phase 3 with its [try]/[catch]: the handler logs and goes on. *)
Definition pull : M unit :=
  try_catch
    ('(status, body) <- fetch_list ;;
     if negb (response_ok status) then throw (Http status)
     else
       data <- json body ;;
       match (if ld_ok data then ld_tasks data else None) with
       | Some tasks =>
           localTaskIds <- getAllTasksLocal ;;
           for_of tasks merge_one tt
       | None => ret tt
       end)
    (fun err => ret tt).

Definition is_local (t : Task) : bool :=
  negb (deleted t) && Js.startsWith (clientId t) "local_".

Definition is_server (t : Task) : bool := Js.startsWith (clientId t) "server_".

(** Phase 1: [allTasks], [localTasks] and the loop over them. *)
Definition phase1 : M nat :=
  allTasks <- getAllTasksLocal ;;
  let localTasks := filter is_local allTasks in
  for_of localTasks push_create 0%nat.

(** Phase 2: [updatedTasks], [serverTasks] and the loop over them. *)
Definition phase2 (syncedCount : nat) : M nat :=
  updatedTasks <- getAllTasksLocal ;;
  let serverTasks := filter is_server updatedTasks in
  for_of serverTasks push_change syncedCount.

Definition syncPendingTasks : M nat :=
  online <- gets (fun a => onLine (world a)) ;;
  if negb online then throw Offline
  else
    syncedCount <- phase1 ;;
    syncedCount <- phase2 syncedCount ;;
    pull ;;;
    renderTasks ;;;
    ret syncedCount.

End Page.

Arguments App W : clear implicits.
Arguments M W A : clear implicits.

End Client.

(** ** The page talking to server.js

    An environment for the page in which [fetch] reaches the server of this
    repository over a network that can drop requests: each request consumes
    one entry of [outages] ([true]: the request is lost and the promise
    rejects) and takes one millisecond.  Every answer of server.js is a
    JSON object. *)
Module Wire.

Record Net := mkNet {
  server : Server.State;
  clock : Z;
  connected : bool;
  outages : list bool
}.

Definition exchange {A} (n : Net) (r : Server.Request)
    (decode : Server.Reply -> A) : Net * Client.Fetch A :=
  match outages n with
  | true :: rest =>
      (mkNet (server n) (clock n + 1) (connected n) rest,
       Client.Rejected "Failed to fetch")
  | rest =>
      let '(s, reply) := Server.handle (clock n) (server n) r in
      (mkNet s (clock n + 1) (connected n) (tl rest),
       Client.Response (Server.status_of reply) (Client.JsonData (decode reply)))
  end.

Definition decode_create (r : Server.Reply) : Client.CreateData :=
  Client.mkCreateData (Server.ok_of r)
    (match r with Server.Created t => Some t | _ => None end).

Definition decode_update (r : Server.Reply) : Client.UpdateData :=
  Client.mkUpdateData (Server.ok_of r).

Definition decode_list (r : Server.Reply) : Client.ListData :=
  Client.mkListData (Server.ok_of r)
    (match r with Server.Listed l _ _ => Some l | _ => None end).

#[global] Instance net_env : Client.Env Net := {
  Client.onLine := connected;
  Client.now := clock;
  Client.fetch_post := fun n b => exchange n (Server.PostTask b) decode_create;
  Client.fetch_put := fun n i b => exchange n (Server.PutTask i b) decode_update;
  Client.fetch_delete := fun n i => exchange n (Server.DeleteTask i) (fun _ => tt);
  Client.fetch_get := fun n => exchange n Server.GetTasks decode_list
}.

(** A page that has issued no request and rendered nothing yet. *)
Definition page (n : Net) (db : Client.Store) : Client.App Net :=
  Client.mkApp n db [] [] 0.

End Wire.

(** * Vocabulary of the statements *)

(** ** server.js *)
Module ServerSpec.
Import Server.

(** Every task of the store has an id below the counter, and no two tasks
    share an id. *)
Definition inv (s : State) : Prop :=
  NoDup (map id (TASKS s)) /\ Forall (fun t => id t < NEXT_ID s) (TASKS s).

(** The ids [NEXT_ID], [NEXT_ID + 1], ... handed out by [n] creations. *)
Definition fresh_ids (next : Z) (n : nat) : list Z :=
  map (fun k => next + Z.of_nat k) (seq 0 n).

(** What the [forEach] of POST /api/sync maintains, from the state [s0]
    the request found. *)
Definition sync_inv (s0 : State) (a : SyncAcc) : Prop :=
  inv (acc_state a) /\
  exists n, acc_created a = fresh_ids (NEXT_ID s0) n /\
            NEXT_ID (acc_state a) = NEXT_ID s0 + Z.of_nat n /\
            Forall (fun i => In i (map id (TASKS (acc_state a)))) (acc_created a).

(** A text property that [.trim()] accepts: absent, or a string. *)
Definition text_ok (v : option Js.Value) : bool :=
  match v with
  | None | Some (Js.JStr _) => true
  | Some _ => false
  end.

(** A body of PUT /api/tasks/:id whose title and description, when
    present, are strings. *)
Definition texts_ok (b : Body) : bool :=
  text_ok (b_title b) && text_ok (b_description b).

End ServerSpec.

(** ** app.js *)
Module SyncSpec.
Import Client.

(** The exception that reading a body raises: it is not JSON, or it is
    [null]. *)
Definition body_failure {A} (body : Json A) : option Error :=
  match body with
  | NotJson m => Some (Syntax m)
  | JsonNull => Some Type_error
  | JsonData _ => None
  end.

(** The exception that the call site of a create or an update raises for an
    answer: a rejected promise, a status outside 200-299, or an OK answer
    whose body cannot be read.  It depends on the answer alone. *)
Definition answer_failure {A} (r : Fetch A) : option Error :=
  match r with
  | Rejected m => Some (Network m)
  | Response status body =>
      if response_ok status then body_failure body else Some (Http status)
  end.

(** The exception, if any, that the answer to a request makes
    syncPendingTasks throw: the body of the answer to a DELETE is not read,
    so that a DELETE only fails by rejection, and nothing the GET of
    phase 3 answers is thrown. *)
Definition failure_of (c : Call) : option Error :=
  match c with
  | CallCreate _ _ r => answer_failure r
  | CallUpdate _ _ _ r => answer_failure r
  | CallDelete _ _ (Rejected m) => Some (Network m)
  | CallDelete _ _ (Response _ _) => None
  | CallList _ => None
  end.

(** The requests [evs] of a push loop that ended with [out]: all of kind
    [K]; none failed when the loop returned, and when it threw, the last
    one failed with the error thrown and none before it failed. *)
Definition pushes (K : Call -> Prop) (evs : list Call) (out : Outcome nat) : Prop :=
  Forall K evs /\
  match out with
  | Returned _ => Forall (fun c => failure_of c = None) evs
  | Thrown e => exists pre c, evs = pre ++ [c] /\
                              Forall (fun c => failure_of c = None) pre /\
                              failure_of c = Some e
  end.

(** A POST issued for a task of [l]. *)
Definition create_for (l : list Task) (c : Call) : Prop :=
  exists t r, In t l /\ c = CallCreate (clientId t) (body_of t) r.

(** A PUT issued for a task of [l], to the id read from its key. *)
Definition update_for (l : list Task) (c : Call) : Prop :=
  exists t r, In t l /\
              c = CallUpdate (clientId t) (serverId_of (clientId t)) (body_of t) r.

(** The requests of phases 1 and 2 that the code can reach. *)
Definition is_push (c : Call) : Prop :=
  match c with
  | CallCreate _ _ _ | CallUpdate _ _ _ _ => True
  | _ => False
  end.

(** The task a request was issued for. *)
Definition call_for (k : string) (c : Call) : Prop :=
  match c with
  | CallCreate cid _ _ | CallUpdate cid _ _ _ | CallDelete cid _ _ => cid = k
  | CallList _ => False
  end.

(** How the store changes: over a synchronisation a key keeps its record, or holds a clean
    [server_] record, or is a [local_] key that was removed. *)
Definition evolves (s s' : Store) : Prop :=
  forall k,
    store_get k s' = store_get k s \/
    (Js.startsWith k "server_" = true /\
     exists t, store_get k s' = Some t /\ dirty t = false) \/
    (Js.startsWith k "local_" = true /\ store_get k s' = None).


(** The requests of a whole run when the page is online: the pushes of
    phases 1 and 2, then, if none of them failed, the one GET of phase 3. *)
Definition reported (evs : list Call) (out : Outcome nat) : Prop :=
  match out with
  | Thrown e =>
      exists pre c, evs = pre ++ [c] /\
                    Forall (fun c => is_push c /\ failure_of c = None) pre /\
                    is_push c /\ failure_of c = Some e
  | Returned _ =>
      exists pre r, evs = pre ++ [CallList r] /\
                    Forall (fun c => is_push c /\ failure_of c = None) pre
  end.

(** A record that needs no synchronisation: not a [local_] record, not
    dirty, not marked deleted. *)
Definition consistent (t : Task) : Prop :=
  Js.startsWith (clientId t) "local_" = false /\ dirty t = false /\
  deleted t = false.

(** [true] on a DELETE request. *)
Definition is_delete (c : Call) : bool :=
  match c with
  | CallDelete _ _ _ => true
  | _ => false
  end.

Section Continuations.

Context {W : Type} `{Env W}.

(** What follows phase 2. *)
Definition finish (syncedCount : nat) (a : App W) : App W * Outcome nat :=
  (fst (renderTasks (fst (pull a))), Returned syncedCount).

(** What follows phase 1. *)
Definition after_phase1 (syncedCount : nat) (a : App W) : App W * Outcome nat :=
  match for_of (filter is_server (visible (db a))) push_change syncedCount a with
  | (a2, Returned n2) => finish n2 a2
  | (a2, Thrown e) => (a2, Thrown e)
  end.

End Continuations.

End SyncSpec.

(** ** Sample pages

    A server started at time [start] and pages in front of it. *)
Module Samples.
Import Client.

Definition start : Z := 7200000.

(** A reliable network. *)
Definition net0 : Wire.Net := Wire.mkNet (Server.init start) (start + 1) true [].

(** A network that loses the second request. *)
Definition net_drop2 : Wire.Net :=
  Wire.mkNet (Server.init start) (start + 1) true [false; true].

(** A network that loses the first request. *)
Definition net_down : Wire.Net :=
  Wire.mkNet (Server.init start) (start + 1) true [true].

(** Three tasks created offline; newest first they are eggs, milk, bread. *)
Definition bread : Task :=
  mkTask "local_a" None (Some "local_a") "Bread" "" false Js.JNull Js.JNull
         4 4 true false.
Definition milk : Task :=
  mkTask "local_b" None (Some "local_b") "Buy milk" "" false Js.JNull Js.JNull
         5 5 true false.
Definition eggs : Task :=
  mkTask "local_c" None (Some "local_c") "Eggs" "" false Js.JNull Js.JNull
         6 6 true false.

Definition shopping : Store := [bread; milk; eggs].

(** What the server makes of [milk] when it is the first task created. *)
Definition milk_on_server : Server.Task :=
  Server.mkTask 3 "Buy milk" "" false Js.JNull Js.JNull (start + 1) (start + 1).

(** A dirty record of a task that the server does not have. *)
Definition ghost : Task :=
  mkTask "server_99" (Some 99) None "Ghost" "" false Js.JNull Js.JNull
         5 5 true false.

(** A page that has pulled the two tasks of the server. *)
Definition synced : App Wire.Net :=
  fst (syncPendingTasks (Wire.page net0 [])).

(** The user then deletes task 1 on that page. *)
Definition deleted_one : App Wire.Net :=
  fst (deleteTaskLocal "server_1" synced).

(** Meanwhile another client renames task 2 on the server. *)
Definition renamed_two : App Wire.Net :=
  let n := world deleted_one in
  mkApp (Wire.mkNet
           (fst (Server.handle (Wire.clock n) (Wire.server n)
                   (Server.PutTask (Some 2)
                      (Server.mkBody (Some (Js.JStr "Enviar reporte final"))
                                     None None None None))))
           (Wire.clock n) (Wire.connected n) (Wire.outages n))
        (db deleted_one) [] [] 0.

(** The two tasks as the server then has them. *)
Definition first_on_server : Server.Task :=
  Server.mkTask 1 "Comprar leche" "Leche entera 1L" false Js.JNull Js.JNull
                (start - 3600000) (start - 3600000).

(** A page behind a proxy that answers every request with status 200 and
    an HTML page. *)
Definition portal : Env unit := {|
  onLine := fun _ => true;
  now := fun _ => start;
  fetch_post := fun w _ => (w, Response 200 (NotJson "Unexpected token <"));
  fetch_put := fun w _ _ => (w, Response 200 (NotJson "Unexpected token <"));
  fetch_delete := fun w _ => (w, Response 200 (NotJson "Unexpected token <"));
  fetch_get := fun w => (w, Response 200 (NotJson "Unexpected token <"))
|}.

Definition portal_page (db : Store) : App unit := mkApp tt db [] [] 0.

(** The tombstone that [deleteTaskLocal] left for task 1. *)
Definition tombstone : Task :=
  mkTask "server_1" (Some 1) None "Comprar leche" "Leche entera 1L" false
         Js.JNull Js.JNull (start - 3600000) (start + 2) true true.

End Samples.

(** ** White space at the head of a string *)
Module JsSpec.
Import Js.

(** The length in bytes of the white-space character at the head of [s];
    0 when [s] does not start with white space. *)
Definition space_len (s : string) : nat :=
  match s with
  | EmptyString => 0
  | String a r =>
      if is_space a then 1
      else match r with
           | EmptyString => 0
           | String b r1 =>
               if is_space2 a b then 2
               else match r1 with
                    | EmptyString => 0
                    | String c _ => if is_space3 a b c then 3 else 0
                    end
           end
  end.

(** [s] without its first [n] bytes. *)
Fixpoint skip (n : nat) (s : string) : string :=
  match n, s with
  | S n', String _ r => skip n' r
  | _, _ => s
  end.

End JsSpec.

(** ** server.js: vocabulary of the route properties *)
Module RouteSpec.
Import Server.

(** A list of tasks in the order the GET routes send: no task is newer
    than one before it. *)
Definition newest_first (l : list Task) : Prop :=
  StronglySorted (fun a b => createdAt b <= createdAt a) l.

(** The elements of a sync request that take the create branch. *)
Definition creatable (task : Incoming) : bool :=
  truthy_localId (in_localId task) && negb (truthy_id (in_id task)).

(** The [_localId] that the mapping of a sync reply carries. *)
Definition local_id_of (task : Incoming) : string :=
  match in_localId task with Some l => l | None => "" end.


(** A description that makes POST /api/tasks throw: truthy and not a
    string. *)
Definition bad_description (v : option Js.Value) : bool :=
  match v with
  | None | Some (Js.JStr _) => false
  | Some d => Js.truthy d
  end.

(** The requests that do not delete the task with id [i]. *)
Definition keeps (i : Z) (r : Request) : bool :=
  match r with
  | DeleteTask (Some j) => negb (j =? i)
  | DeleteAll => false
  | _ => true
  end.

End RouteSpec.

(** ** server.js: push subscriptions

    The routes under "API - PUSH NOTIFICATIONS" and the variables they use.
    [webpush.sendNotification] is the outside: it answers for each
    subscription whether the push was accepted. *)
Module Push.

(** [req.body] of POST /api/save-subscription: a subscription object, of
    which the server reads [endpoint]. *)
Record Subscription := mkSubscription {
  endpoint : option string;
  keys : string
}.

(** [process.env.X || null] *)
Definition env_or_null (v : option string) : option string :=
  match v with
  | Some s => if Js.truthy_string s then Some s else None
  | None => None
  end.

(** The [Map] from endpoint to subscription, in insertion order, and the
    two keys. *)
Record State := mkState {
  VAPID_PUBLIC : option string;
  VAPID_PRIVATE : option string;
  subscriptions : list (string * Subscription)
}.

Definition start (env_public env_private : option string) : State :=
  {| VAPID_PUBLIC := env_or_null env_public;
     VAPID_PRIVATE := env_or_null env_private;
     subscriptions := [] |}.

Definition truthy_key (v : option string) : bool :=
  match v with Some s => Js.truthy_string s | None => false end.



(** [map.delete(k)] *)
Definition map_delete (k : string) (m : list (string * Subscription))
  : list (string * Subscription) :=
  filter (fun e => negb (String.eqb (fst e) k)) m.

(** How [webpush.sendNotification] ends: resolved, or rejected with an
    error that may carry a status code. *)
Inductive SendResult :=
| Accepted
| Refused (statusCode : option Z) (message : string).

(** [req.body] of POST /api/send-notification and the payload built from
    it. *)
Record Note := mkNote {
  note_title : option string;
  note_body : option string;
  note_url : option string
}.

Record Payload := mkPayload {
  p_title : string;
  p_body : string;
  p_icon : string;
  p_badge : string;
  p_url : string
}.

Definition or_default (v : option string) (d : string) : string :=
  match v with
  | Some s => if Js.truthy_string s then s else d
  | None => d
  end.

Definition payload_of (n : Note) : Payload :=
  {| p_title := or_default (note_title n) "Task Manager";
     p_body := or_default (note_body n) "Tienes una notificación nueva";
     p_icon := "/icons/icon-192.png";
     p_badge := "/icons/icon-192.png";
     p_url := or_default (note_url n) "/app" |}.

(** An element of [results]. *)
Inductive Status :=
| StatusSent
| StatusFailed (error : string).

Inductive Reply :=
| Failed (status : Z) (error : string)
| PublicKey (publicKey : string)
| Saved (totalSubscriptions : nat)
| Pushed (results : list (string * Status)) (total sent failed : nat).

Definition get_vapid_public (s : State) : State * Reply :=
  match VAPID_PUBLIC s with
  | Some k => if Js.truthy_string k then (s, PublicKey k)
              else (s, Failed 503 "VAPID no configurado en el servidor")
  | None => (s, Failed 503 "VAPID no configurado en el servidor")
  end.


(** The accumulators of the loop of POST /api/send-notification. *)
Record Sending := mkSending {
  results : list (string * Status);
  failed : list string;
  remaining : list (string * Subscription)
}.

(** The body of [for (const [endpoint, sub] of subscriptions.entries())]:
    a push that is refused is recorded, and the subscription is deleted
    when the status code is 410. *)
Definition send_one (send : Subscription -> Payload -> SendResult)
    (payload : Payload) (acc : Sending) (entry : string * Subscription)
  : Sending :=
  let '(e, sub) := entry in
  match send sub payload with
  | Accepted =>
      {| results := results acc ++ [(e, StatusSent)];
         failed := failed acc;
         remaining := remaining acc |}
  | Refused code message =>
      {| results := results acc ++ [(e, StatusFailed message)];
         failed := failed acc ++ [e];
         remaining := match code with
                      | Some c => if c =? 410 then map_delete e (remaining acc)
                                  else remaining acc
                      | None => remaining acc
                      end |}
  end.

Definition send_notification (send : Subscription -> Payload -> SendResult)
    (s : State) (n : Note) : State * Reply :=
  if negb (truthy_key (VAPID_PUBLIC s)) || negb (truthy_key (VAPID_PRIVATE s))
  then (s, Failed 503 "VAPID no configurado. Ejecuta: npm run generate-vapid")
  else if (List.length (subscriptions s) =? 0)%nat
  then (s, Failed 400 "No hay suscripciones activas")
  else
    let acc := fold_left (send_one send (payload_of n)) (subscriptions s)
                 (mkSending [] [] (subscriptions s)) in
    ({| VAPID_PUBLIC := VAPID_PUBLIC s; VAPID_PRIVATE := VAPID_PRIVATE s;
        subscriptions := remaining acc |},
     Pushed (results acc) (List.length (remaining acc))
            (List.length (results acc) - List.length (failed acc))
            (List.length (failed acc))).

(** The subscriptions that a push round leaves: those whose push was not
    refused with status 410. *)
Definition expired (send : Subscription -> Payload -> SendResult)
    (payload : Payload) (entry : string * Subscription) : bool :=
  match send (snd entry) payload with
  | Refused (Some c) _ => c =? 410
  | _ => false
  end.

(** One subscription per endpoint. *)
Definition distinct (s : State) : Prop := NoDup (map fst (subscriptions s)).

(** [true] when the push to the subscription is refused. *)
Definition refused (send : Subscription -> Payload -> SendResult)
    (payload : Payload) (entry : string * Subscription) : bool :=
  match send (snd entry) payload with
  | Accepted => false
  | Refused _ _ => true
  end.

(** What a round of POST /api/send-notification amounts to: 503 when a
    VAPID key is missing; otherwise 400 when there is no subscription;
    otherwise one push per subscription, with the counts of the reply and
    the subscriptions that stay. *)
Definition accounted (send : Subscription -> Payload -> SendResult)
    (s : State) (n : Note) : Prop :=
  if negb (truthy_key (VAPID_PUBLIC s) && truthy_key (VAPID_PRIVATE s)) then
    send_notification send s n
    = (s, Failed 503 "VAPID no configurado. Ejecuta: npm run generate-vapid")
  else
    match subscriptions s with
    | [] =>
        send_notification send s n = (s, Failed 400 "No hay suscripciones activas")
    | _ :: _ =>
        exists s' results total sent failed,
          send_notification send s n = (s', Pushed results total sent failed) /\
          map fst results = map fst (subscriptions s) /\
          (sent + failed = List.length (subscriptions s))%nat /\
          failed = List.length (filter (refused send (payload_of n))
                                       (subscriptions s)) /\
          subscriptions s'
          = filter (fun x => negb (expired send (payload_of n) x))
                   (subscriptions s) /\
          VAPID_PUBLIC s' = VAPID_PUBLIC s /\
          VAPID_PRIVATE s' = VAPID_PRIVATE s /\
          total = List.length (subscriptions s') /\
          distinct s'
    end.

(** A push service that accepts the subscription with keys [k1] and
    answers 410 Gone for any other, and two subscriptions. *)
Definition sample_send (sub : Subscription) (_ : Payload) : SendResult :=
  if String.eqb (keys sub) "k1" then Accepted else Refused (Some 410) "Gone".

Definition sample_state : State :=
  mkState (Some "pub") (Some "priv")
          [("https://push.example/a",
            mkSubscription (Some "https://push.example/a") "k1");
           ("https://push.example/b",
            mkSubscription (Some "https://push.example/b") "k2")].

End Push.

(** ** app.js: vocabulary of the page properties *)
Module PageSpec.
Import Client.

(** A record that a synchronisation can deal with: not marked deleted, and
    under a [local_] or a [server_] key. *)
Definition syncable (t : Task) : Prop :=
  deleted t = false /\
  (Js.startsWith (clientId t) "local_" = true \/
   Js.startsWith (clientId t) "server_" = true).

(** A record as a synchronisation leaves it: under a [server_] key, not
    dirty, not marked deleted. *)
Definition settled (t : Task) : Prop :=
  dirty t = false /\ deleted t = false /\
  Js.startsWith (clientId t) "server_" = true.

(** What [hasPendingSync] looks for in a record that it gets to see. *)
Definition pending (t : Task) : bool :=
  negb (deleted t) && (dirty t || Js.startsWith (clientId t) "local_").

(** The requests that add one to [syncedCount]: a POST answered OK with
    [ok] and a task, a PUT answered OK with [ok], a DELETE answered OK. *)
Definition applied (c : Call) : bool :=
  match c with
  | CallCreate _ _ (Response status (JsonData data)) =>
      response_ok status &&
      match (if cd_ok data then cd_task data else None) with
      | Some _ => true
      | None => false
      end
  | CallUpdate _ _ _ (Response status (JsonData data)) =>
      response_ok status && ud_ok data
  | CallDelete _ _ (Response status _) => response_ok status
  | _ => false
  end.

(** Rendered elements, newest task first. *)
Definition elements_newest_first (l : list TaskElement) : Prop :=
  StronglySorted (fun e1 e2 => createdAt (el_task e2) <= createdAt (el_task e1)) l.


Section Servers.

Context {W : Type} `{Env W}.

(** A server that answers a POST with an OK status only together with a
    JSON object that has [ok] and the task created, and a PUT with an OK
    status only together with a JSON object that has [ok]; server.js is
    one. *)
Definition honest : Prop :=
  (forall w b w' status body,
      fetch_post w b = (w', Response status body) ->
      response_ok status = true ->
      exists data, body = JsonData data /\
                   cd_ok data = true /\ cd_task data <> None) /\
  (forall w i b w' status body,
      fetch_put w i b = (w', Response status body) ->
      response_ok status = true ->
      exists data, body = JsonData data /\ ud_ok data = true).

End Servers.

End PageSpec.

(** ** public/sw.js

    The fetch strategies of the service worker.  The browser's
    [CacheStorage] is a list of named caches in creation order, each a map
    from request URL to response.  [cache.put] rejects a request that is
    not a GET over http(s) and a response with status 206 or with a [Vary]
    header that holds a star; the worker does not wait for it, so that a
    rejected [put] stores nothing and nothing else happens, and a [put]
    that is accepted is taken to complete before the next request.
    [caches.match] answers only GET requests, from the first cache that
    has the URL.  A request is matched by its URL alone.  URLs of the
    worker's origin are written as in [CORE_ASSETS], from the slash on.
    [fetch] is the outside: [None] is a rejected promise. *)
Module Worker.

Definition CACHE_NAME : string := "task-manager-v1".
Definition API_CACHE : string := "task-api-v1".

Definition CORE_ASSETS : list string :=
  ["/"; "/app"; "/splash"; "/public/app.html"; "/public/app.js";
   "/manifest.json"; "/icons/icon-192.png"; "/icons/icon-512.png"].

(** A request: its URL, the pathname of [new URL(request.url)], its method
    and its mode. *)
Record Request := mkRequest {
  url : string;
  pathname : string;
  method : string;
  mode : string
}.

(** A response body: one that came from the network, or the JSON object
    [{ offline: true, error: 'Sin conexión', data: [] }] that the worker
    builds itself. *)
Inductive Payload :=
| Network_body (s : string)
| Offline_body.

(** A response: its status, whether its [Vary] header holds a star, and
    its body. *)
Record Response := mkResponse {
  status : Z;
  vary_star : bool;
  body : Payload
}.

(** [response.ok] *)
Definition ok (r : Response) : bool := (200 <=? status r) && (status r <=? 299).

Definition Cache := list (string * Response).
Definition CacheStorage := list (string * Cache).

(** The worker's view of the browser: the caches, and the requests it has
    passed to [fetch]. *)
Record State := mkState {
  caches : CacheStorage;
  fetched : list Request
}.

Fixpoint cache_get (u : string) (c : Cache) : option Response :=
  match c with
  | [] => None
  | (u', r) :: rest => if String.eqb u' u then Some r else cache_get u rest
  end.

Fixpoint cache_set (u : string) (r : Response) (c : Cache) : Cache :=
  match c with
  | [] => [(u, r)]
  | (u', r') :: rest => if String.eqb u' u then (u, r) :: rest
                        else (u', r') :: cache_set u r rest
  end.

(** The cache of a name, if it exists. *)
Fixpoint find_cache (name : string) (cs : CacheStorage) : option Cache :=
  match cs with
  | [] => None
  | (n, c) :: rest => if String.eqb n name then Some c else find_cache name rest
  end.

(** [caches.open(name)] followed by a change of that cache: the cache is
    created, last, when it does not exist. *)
Fixpoint with_cache (name : string) (f : Cache -> Cache) (cs : CacheStorage)
  : CacheStorage :=
  match cs with
  | [] => [(name, f [])]
  | (n, c) :: rest => if String.eqb n name then (n, f c) :: rest
                      else (n, c) :: with_cache name f rest
  end.

(** A URL over http or https: one of the worker's origin, or an absolute
    one with such a scheme. *)
Definition http_url (u : string) : bool :=
  Js.startsWith u "/" || Js.startsWith u "http://" || Js.startsWith u "https://".

(** What [cache.put] accepts. *)
Definition storable (request : Request) (response : Response) : bool :=
  String.eqb (method request) "GET" && http_url (url request)
  && negb (status response =? 206) && negb (vary_star response).

(** [cache.put(request, response.clone())], not awaited: a pair that is
    not accepted leaves the cache as it was. *)
Definition cache_put (request : Request) (response : Response) (c : Cache)
  : Cache :=
  if storable request response then cache_set (url request) response c
  else c.

(** [caches.match(url)] for a GET of that URL. *)
Fixpoint match_url (u : string) (cs : CacheStorage) : option Response :=
  match cs with
  | [] => None
  | (_, c) :: rest => match cache_get u c with
                      | Some r => Some r
                      | None => match_url u rest
                      end
  end.

(** [caches.match(request)] *)
Definition caches_match (request : Request) (cs : CacheStorage)
  : option Response :=
  if String.eqb (method request) "GET" then match_url (url request) cs else None.

(** The answer built when the network fails and nothing is cached. *)
Definition offline_response : Response := mkResponse 503 false Offline_body.

Definition networkFirstStrategy (net : Request -> option Response)
    (request : Request) (cacheName : string) (st : State) : State * Response :=
  let st1 := mkState (caches st) (fetched st ++ [request]) in
  match net request with
  | Some response =>
      (if ok response
       then mkState (with_cache cacheName (cache_put request response) (caches st1))
                    (fetched st1)
       else st1,
       response)
  | None =>
      (st1, match caches_match request (caches st1) with
            | Some cached => cached
            | None => offline_response
            end)
  end.

(** How [cacheFirstStrategy] ends: with a response, with [undefined], or
    by rethrowing the error of [fetch]. *)
Inductive Served :=
| Answer (r : Response)
| Nothing
| Rethrown.

(** In the [catch] of [cacheFirstStrategy] the value returned is
    [caches.match('/app') || caches.match('/')]: the left operand is a
    promise, which is truthy, so the value is the first match alone. *)
Definition cacheFirstStrategy (net : Request -> option Response)
    (request : Request) (st : State) : State * Served :=
  match caches_match request (caches st) with
  | Some cached => (st, Answer cached)
  | None =>
      let st1 := mkState (caches st) (fetched st ++ [request]) in
      match net request with
      | Some response =>
          (if ok response && String.eqb (method request) "GET"
           then mkState (with_cache CACHE_NAME (cache_put request response)
                                    (caches st1))
                        (fetched st1)
           else st1,
           Answer response)
      | None =>
          if String.eqb (mode request) "navigate"
          then (st1, match match_url "/app" (caches st1) with
                     | Some r => Answer r
                     | None => Nothing
                     end)
          else (st1, Rethrown)
      end
  end.

(** The [fetch] listener. *)
Definition on_fetch (net : Request -> option Response) (request : Request)
    (st : State) : State * Served :=
  if Js.startsWith (pathname request) "/api/" then
    let '(st', r) := networkFirstStrategy net request API_CACHE st in
    (st', Answer r)
  else cacheFirstStrategy net request st.

(** The [activate] listener: every cache under another name is deleted. *)
Definition on_activate (st : State) : State :=
  mkState (filter (fun e => negb (negb (String.eqb (fst e) CACHE_NAME)
                                  && negb (String.eqb (fst e) API_CACHE)))
                  (caches st))
          (fetched st).

(** Every response held in a cache is an OK response. *)
Definition only_ok (cs : CacheStorage) : Prop :=
  Forall (fun e => Forall (fun x => ok (snd x) = true) (snd e)) cs.

(** The network is down. *)
Definition down (_ : Request) : option Response := None.

End Worker.

(** * Properties *)

(** ** server.js: identifiers *)
Module ServerFacts.
Import Server ServerSpec.

Lemma insert_newest_perm (t : Task) (l : list Task) :
  Permutation (insert_newest t l) (t :: l).
Proof.
  induction l as [|u r IH]; simpl; [reflexivity|].
  destruct (createdAt u <=? createdAt t); [reflexivity|].
  rewrite IH. apply perm_swap.
Qed.

Lemma sort_newest_perm (l : list Task) : Permutation (sort_newest l) l.
Proof.
  induction l as [|t r IH]; simpl; [reflexivity|].
  rewrite insert_newest_perm. now constructor.
Qed.

Lemma mutate_ids (i : Z) (f : Task -> Task) (l : list Task) :
  (forall t, id (f t) = id t) -> map id (mutate i f l) = map id l.
Proof.
  intros Hf. induction l as [|t r IH]; simpl; [reflexivity|].
  destruct (id t =? i); simpl; [now rewrite Hf | now rewrite IH].
Qed.

Lemma mutate_bound (i n : Z) (f : Task -> Task) (l : list Task) :
  (forall t, id (f t) = id t) ->
  Forall (fun t => id t < n) l -> Forall (fun t => id t < n) (mutate i f l).
Proof.
  intros Hf. induction 1 as [|t r Ht Hr IH]; simpl; [constructor|].
  destruct (id t =? i); constructor; auto. now rewrite Hf.
Qed.

Lemma filter_ids_nodup (p : Task -> bool) (l : list Task) :
  NoDup (map id l) -> NoDup (map id (filter p l)).
Proof.
  induction l as [|t r IH]; simpl; [auto|].
  intros Hnd. inversion Hnd as [|? ? Hnot Hrest]; subst.
  destruct (p t); simpl; auto. constructor; auto.
  intros Hin. apply Hnot. apply in_map_iff in Hin as [u [Hu Hin]].
  apply filter_In in Hin as [Hin _]. apply in_map_iff. eauto.
Qed.

Lemma inv_sorted (s : State) :
  inv s -> inv {| TASKS := sort_newest (TASKS s); NEXT_ID := NEXT_ID s |}.
Proof.
  intros [Hnd Hlt]. split; simpl.
  - eapply Permutation_NoDup; [|exact Hnd].
    apply Permutation_map. symmetry. apply sort_newest_perm.
  - eapply Permutation_Forall; [|exact Hlt].
    symmetry. apply sort_newest_perm.
Qed.

Lemma inv_append (s : State) (t : Task) :
  inv s -> id t = NEXT_ID s ->
  inv {| TASKS := TASKS s ++ [t]; NEXT_ID := NEXT_ID s + 1 |}.
Proof.
  intros [Hnd Hlt] Hid. split; simpl.
  - rewrite map_app. simpl.
    apply (Permutation_NoDup (l := id t :: map id (TASKS s))).
    + apply Permutation_cons_append.
    + constructor; auto. intros Hin. apply in_map_iff in Hin as [u [Hu Hin]].
      rewrite Forall_forall in Hlt. specialize (Hlt u Hin). lia.
  - apply Forall_app. split.
    + eapply Forall_impl; [|exact Hlt]. simpl. intros; lia.
    + constructor; [lia|constructor].
Qed.

Lemma inv_mutate (s : State) (i : Z) (f : Task -> Task) :
  (forall t, id (f t) = id t) -> inv s ->
  inv {| TASKS := mutate i f (TASKS s); NEXT_ID := NEXT_ID s |}.
Proof.
  intros Hf [Hnd Hlt]. split; simpl.
  - now rewrite mutate_ids.
  - now apply mutate_bound.
Qed.

Lemma inv_filter (s : State) (p : Task -> bool) :
  inv s -> inv {| TASKS := filter p (TASKS s); NEXT_ID := NEXT_ID s |}.
Proof.
  intros [Hnd Hlt]. split; simpl.
  - now apply filter_ids_nodup.
  - rewrite Forall_forall in *. intros t Ht. apply filter_In in Ht as [Ht _]. auto.
Qed.

Lemma fresh_ids_snoc (next : Z) (n : nat) :
  fresh_ids next (S n) = fresh_ids next n ++ [next + Z.of_nat n].
Proof. unfold fresh_ids. rewrite seq_S, map_app. reflexivity. Qed.

Lemma fresh_ids_bounds (next : Z) (n : nat) :
  Forall (fun i => next <= i < next + Z.of_nat n) (fresh_ids next n).
Proof.
  unfold fresh_ids. apply Forall_forall. intros i Hi.
  apply in_map_iff in Hi as [k [<- Hk]]. apply in_seq in Hk. lia.
Qed.

Lemma sorted_app (m : Z) (l1 l2 : list Z) :
  StronglySorted Z.lt l1 -> StronglySorted Z.lt l2 ->
  Forall (fun i => i < m) l1 -> Forall (fun i => m <= i) l2 ->
  StronglySorted Z.lt (l1 ++ l2).
Proof.
  intros H1 H2 Hb1 Hb2. induction H1 as [|a l Hl IH Ha]; simpl; auto.
  inversion Hb1; subst. constructor; auto.
  apply Forall_app. split; auto.
  eapply Forall_impl; [|exact Hb2]. simpl. intros; lia.
Qed.

Lemma fresh_ids_sorted (next : Z) (n : nat) :
  StronglySorted Z.lt (fresh_ids next n).
Proof.
  induction n as [|n IH]; [constructor|].
  rewrite fresh_ids_snoc. apply sorted_app with (m := next + Z.of_nat n); auto.
  - repeat constructor.
  - eapply Forall_impl; [|apply fresh_ids_bounds]. simpl. intros; lia.
  - constructor; [lia|constructor].
Qed.

Lemma find_id (i : Z) (l : list Task) (t : Task) :
  find (fun t => id t =? i) l = Some t -> id t = i /\ In t l.
Proof.
  intros Hf. apply find_some in Hf as [Hin Heq]. split; [lia|auto].
Qed.

Lemma resolve_ids (l : list Task) (ids : list Z) :
  Forall (fun i => In i (map id l)) ids -> map id (resolve l ids) = ids.
Proof.
  induction 1 as [|i r Hi Hr IH]; [reflexivity|].
  unfold resolve in *. simpl. rewrite map_app, IH.
  destruct (find (fun t => id t =? i) l) as [t|] eqn:Hf.
  - apply find_id in Hf as [Hid _]. simpl. now rewrite Hid.
  - exfalso. apply in_map_iff in Hi as [t [Ht Hin]].
    apply (find_none _ _ Hf) in Hin. lia.
Qed.

Lemma merge_incoming_id (now : Z) (task : Incoming) (t : Task) :
  id (merge_incoming now task t) = id t.
Proof. reflexivity. Qed.

Lemma sync_one_inv (now : Z) (s0 : State) (a : SyncAcc) (task : Incoming) :
  sync_inv s0 a -> sync_inv s0 (sync_one now a task).
Proof.
  intros Hsame. pose proof Hsame as [Hinv [n [Hc [Hn Hin]]]]. unfold sync_one.
  destruct (truthy_localId (in_localId task) && negb (truthy_id (in_id task))).
  - split; simpl.
    + apply inv_append; auto.
    + exists (S n). rewrite fresh_ids_snoc, <- Hc, Hn. repeat split.
      * lia.
      * rewrite map_app. apply Forall_app. split.
        -- eapply Forall_impl; [|exact Hin]. simpl. intros i Hi.
           apply in_or_app. now left.
        -- constructor; [|constructor]. apply in_or_app. right. simpl. lia.
  - destruct (truthy_id (in_id task)); [|exact Hsame].
    destruct (find_task (in_id task) (TASKS (acc_state a))) as [existing|];
      [|exact Hsame].
    split; simpl.
    + apply inv_mutate; auto.
    + exists n. repeat split; auto.
      rewrite mutate_ids; auto.
Qed.

Lemma sync_fold_inv (now : Z) (s0 : State) (l : list Incoming) (a : SyncAcc) :
  sync_inv s0 a -> sync_inv s0 (fold_left (sync_one now) l a).
Proof.
  revert a. induction l as [|task r IH]; simpl; auto.
  intros a Ha. apply IH. now apply sync_one_inv.
Qed.

Lemma inv_skip (s : State) :
  inv s -> inv {| TASKS := TASKS s; NEXT_ID := NEXT_ID s + 1 |}.
Proof.
  intros [Hnd Hlt]. split; simpl; [exact Hnd|].
  eapply Forall_impl; [|exact Hlt]. simpl. intros; lia.
Qed.

Lemma apply_body_id (now : Z) (b : Body) (t : Task) :
  id (fst (apply_body now b t)) = id t.
Proof.
  unfold apply_body, assign_text.
  destruct (b_title b) as [x|]; [destruct (Js.trim_of x)|];
    destruct (b_description b) as [y|]; try destruct (Js.trim_of y); reflexivity.
Qed.

(** One request: the invariant is kept and the reply reports exactly the
    ids from the counter on; the counter ends just past them, or one
    further when POST /api/tasks threw after taking an id. *)
Lemma handle_fresh (now : Z) (s : State) (r : Request) :
  inv s ->
  inv (fst (handle now s r)) /\
  exists n, created_ids (snd (handle now s r)) = fresh_ids (NEXT_ID s) n /\
            (NEXT_ID (fst (handle now s r)) = NEXT_ID s + Z.of_nat n \/
             (exists b, r = PostTask b) /\
             snd (handle now s r) = server_error /\
             n = 0%nat /\
             NEXT_ID (fst (handle now s r)) = NEXT_ID s + 1).
Proof.
  intros Hinv.
  assert (Hsame : forall s' reply,
             inv s' -> NEXT_ID s' = NEXT_ID s -> created_ids reply = [] ->
             inv s' /\
             exists n, created_ids reply = fresh_ids (NEXT_ID s) n /\
                       (NEXT_ID s' = NEXT_ID s + Z.of_nat n \/
                        (exists b, r = PostTask b) /\
                        reply = server_error /\ n = 0%nat /\
                        NEXT_ID s' = NEXT_ID s + 1)).
  { intros s' reply Hi Hn Hc. split; [exact Hi|]. exists 0%nat.
    split; [exact Hc|]. left. simpl. lia. }
  destruct r as [| |b|param b|param| |l].
  - apply Hsame; [now apply inv_sorted|reflexivity|reflexivity].
  - apply Hsame; [now apply inv_sorted|reflexivity|reflexivity].
  - cbn [handle]. unfold post_api_tasks.
    destruct (b_title b) as [t|]; [|now apply Hsame].
    destruct (negb (Js.truthy t)); [now apply Hsame|].
    destruct (Js.trim_of t) as [trimmed|]; [|now apply Hsame].
    destruct (String.eqb trimmed ""); [now apply Hsame|].
    destruct (description_of (b_description b)) as [text|]; cbn [fst snd].
    + split; [now apply inv_append|]. exists 1%nat. unfold fresh_ids. simpl.
      split; [f_equal; lia|left; lia].
    + split; [now apply inv_skip|]. exists 0%nat. split; [reflexivity|].
      right. split; [now exists b|auto].
  - cbn [handle]. unfold put_api_tasks.
    destruct (find_task param (TASKS s)) as [task|].
    + apply Hsame; [|reflexivity|].
      * apply inv_mutate; [|exact Hinv]. intros t. apply apply_body_id.
      * cbn [snd]. now destruct (snd (apply_body now b task)).
    + now apply Hsame.
  - apply Hsame; [|reflexivity|reflexivity]. cbn [handle]. unfold delete_api_task.
    destruct param; [now apply inv_filter|]. now destruct s.
  - apply Hsame; [|reflexivity|reflexivity]. split; simpl; constructor.
  - cbn [handle]. unfold post_api_sync.
    set (incoming := match l with Some l0 => l0 | None => [] end).
    assert (Hs : sync_inv s (fold_left (sync_one now) incoming (mkSyncAcc s [] [] []))).
    { apply sync_fold_inv. split; [exact Hinv|]. exists 0%nat. simpl.
      repeat split; [lia|constructor]. }
    destruct Hs as [Hi [n [Hc [Hn Hin]]]]. simpl. split; auto.
    exists n. rewrite resolve_ids; auto.
Qed.

Lemma run_fresh (reqs : list (Z * Request)) (s : State) :
  inv s ->
  inv (fst (run s reqs)) /\
  NEXT_ID s <= NEXT_ID (fst (run s reqs)) /\
  StronglySorted Z.lt (snd (run s reqs)) /\
  Forall (fun i => NEXT_ID s <= i < NEXT_ID (fst (run s reqs))) (snd (run s reqs)).
Proof.
  revert s. induction reqs as [|[now r] rest IH]; intros s Hinv; simpl.
  - split; [exact Hinv|]. split; [lia|]. split; constructor.
  - destruct (handle_fresh now s r Hinv) as [Hinv1 [n [Hc Hn]]].
    destruct (handle now s r) as [s1 reply]. simpl in *.
    assert (Hle1 : NEXT_ID s + Z.of_nat n <= NEXT_ID s1).
    { destruct Hn as [Hn|[_ [_ [-> Hn]]]]; simpl; lia. }
    clear Hn.
    destruct (IH s1 Hinv1) as [Hinv2 [Hle [Hs Hb]]].
    destruct (run s1 rest) as [s2 ids]. simpl in *.
    split; [exact Hinv2|]. split; [lia|]. split.
    + rewrite Hc. apply sorted_app with (m := NEXT_ID s1); auto.
      * apply fresh_ids_sorted.
      * eapply Forall_impl; [|apply fresh_ids_bounds]. simpl. intros; lia.
      * eapply Forall_impl; [|exact Hb]. simpl. intros; lia.
    + apply Forall_app. split.
      * rewrite Hc. eapply Forall_impl; [|apply fresh_ids_bounds]. simpl. intros; lia.
      * eapply Forall_impl; [|exact Hb]. simpl. intros; lia.
Qed.

Lemma inv_init (t0 : Z) : inv (init t0).
Proof.
  split; simpl.
  - repeat constructor; simpl; intuition lia.
  - repeat constructor; simpl; lia.
Qed.

Lemma fresh_ids_length (next : Z) (n : nat) : List.length (fresh_ids next n) = n.
Proof. unfold fresh_ids. now rewrite length_map, length_seq. Qed.

(** C9: the ids that server.js assigns are pairwise distinct and strictly
    increasing.  In every state [s] reached from start-up by any sequence of
    requests, no two tasks of [TASKS] share an id and the ids assigned so
    far are strictly increasing; a further request assigns exactly
    [NEXT_ID], [NEXT_ID + 1], ... to the tasks it creates (POST /api/tasks
    or the create branch of POST /api/sync), so a new id is the id of no
    task of [s] and exceeds every id assigned before.  The counter is left
    just past the new ids; the one exception is a POST /api/tasks that
    throws on its description after [NEXT_ID++], which creates nothing and
    leaves the counter one further, an id that no task will have. *)
Theorem server_ids_distinct_increasing
    (t0 : Z) (reqs : list (Z * Request)) (now : Z) (r : Request) :
  let s := fst (run (init t0) reqs) in
  let assigned := snd (run (init t0) reqs) in
  let s' := fst (handle now s r) in
  let new := created_ids (snd (handle now s r)) in
  NoDup (map id (TASKS s)) /\
  StronglySorted Z.lt assigned /\
  new = fresh_ids (NEXT_ID s) (List.length new) /\
  (NEXT_ID s' = NEXT_ID s + Z.of_nat (List.length new) \/
   (exists b, r = PostTask b) /\ snd (handle now s r) = server_error /\
   new = [] /\ NEXT_ID s' = NEXT_ID s + 1) /\
  NoDup (map id (TASKS s')) /\
  Forall (fun i => ~ In i (map id (TASKS s))) new /\
  Forall (fun i => Forall (fun j => j < i) assigned) new.
Proof.
  intros s assigned s' new.
  destruct (run_fresh reqs (init t0) (inv_init t0)) as [Hinv [Hle [Hs Hb]]].
  fold s in Hinv, Hle, Hb. fold assigned in Hs, Hb.
  destruct (handle_fresh now s r Hinv) as [Hinv' [n [Hc Hn]]].
  fold s' in Hinv', Hn. fold new in Hc.
  assert (Hlen : List.length new = n) by (rewrite Hc; apply fresh_ids_length).
  rewrite Hlen.
  split; [apply Hinv|]. split; [exact Hs|]. split; [exact Hc|].
  split.
  { destruct Hn as [Hn|[Hb' [Hr [Hn0 Hn]]]]; [now left|right].
    split; [exact Hb'|]. split; [exact Hr|]. split; [|exact Hn].
    rewrite Hc, Hn0. reflexivity. }
  split; [apply Hinv'|].
  pose proof (fresh_ids_bounds (NEXT_ID s) n) as Hnew. rewrite <- Hc in Hnew.
  split.
  - eapply Forall_impl; [|exact Hnew]. simpl. intros i Hi Hin.
    apply in_map_iff in Hin as [t [Ht Hin]].
    destruct Hinv as [_ Hlt]. rewrite Forall_forall in Hlt.
    specialize (Hlt t Hin). lia.
  - eapply Forall_impl; [|exact Hnew]. simpl. intros i Hi.
    eapply Forall_impl; [|exact Hb]. simpl. intros; lia.
Qed.

Lemma find_split (i : Z) (l : list Task) (t : Task) :
  find (fun t => id t =? i) l = Some t ->
  exists l1 l2, l = l1 ++ t :: l2 /\ Forall (fun u => id u <> i) l1 /\ id t = i.
Proof.
  induction l as [|u r IH]; simpl; [discriminate|].
  destruct (id u =? i) eqn:Hu.
  - intros [= ->]. exists [], r. repeat split; [constructor|lia].
  - intros Hf. destruct (IH Hf) as [l1 [l2 [-> [Hl1 Hid]]]].
    exists (u :: l1), l2. repeat split; auto. constructor; [lia|auto].
Qed.

Lemma mutate_split (i : Z) (f : Task -> Task) (l1 l2 : list Task) (t : Task) :
  Forall (fun u => id u <> i) l1 -> id t = i ->
  mutate i f (l1 ++ t :: l2) = l1 ++ f t :: l2.
Proof.
  intros Hl1 Hid. induction Hl1 as [|u r Hu Hr IH]; simpl.
  - rewrite Hid, Z.eqb_refl. reflexivity.
  - destruct (id u =? i) eqn:E; [lia|]. now rewrite IH.
Qed.

Lemma find_first (i : Z) (l1 l2 : list Task) (t : Task) :
  Forall (fun u => id u <> i) l1 -> id t = i ->
  find (fun u => id u =? i) (l1 ++ t :: l2) = Some t.
Proof.
  intros Hl1 Hid. induction Hl1 as [|u r Hu Hr IH]; simpl.
  - now rewrite Hid, Z.eqb_refl.
  - destruct (id u =? i) eqn:E; [lia|exact IH].
Qed.

(** C10, as amended: PUT /api/tasks/:id on an existing task is a partial
    update when the title and the description of the body, if present, are
    strings.  The task addressed is the first task of [TASKS] with the id
    of the URL; it is replaced in place, the tasks before and after it and
    the counter are untouched, id and createdAt are the old ones, and a
    property that the body lacks keeps its prior value.  With such a body
    each of title, description, completed, location and photo that the
    body has takes the value of the body (trimmed for the two texts,
    coerced to a boolean for completed), updatedAt is the time of the
    request and the reply carries the new task.  With a title or a
    description that is present and not a string the handler throws: the
    reply is 500, updatedAt keeps its prior value, and so does everything
    but a title that was a string and was assigned before the throw. *)
Theorem put_partial_update
    (now : Z) (s : State) (i : Z) (b : Body) (l1 l2 : list Task) (task : Task) :
  TASKS s = l1 ++ task :: l2 ->
  Forall (fun u => id u <> i) l1 ->
  id task = i ->
  exists task',
    fst (put_api_tasks now s (Some i) b)
      = {| TASKS := l1 ++ task' :: l2; NEXT_ID := NEXT_ID s |} /\
    id task' = i /\
    createdAt task' = createdAt task /\
    (b_title b = None -> title task' = title task) /\
    (b_description b = None -> description task' = description task) /\
    (b_completed b = None -> completed task' = completed task) /\
    (b_location b = None -> location task' = location task) /\
    (b_photo b = None -> photo task' = photo task) /\
    if texts_ok b then
      snd (put_api_tasks now s (Some i) b) = Updated task' /\
      updatedAt task' = now /\
      (forall x, b_title b = Some (Js.JStr x) -> title task' = Js.trim x) /\
      (forall x, b_description b = Some (Js.JStr x) ->
                 description task' = Js.trim x) /\
      (forall x, b_completed b = Some x -> completed task' = Js.truthy x) /\
      (forall x, b_location b = Some x -> location task' = x) /\
      (forall x, b_photo b = Some x -> photo task' = x)
    else
      snd (put_api_tasks now s (Some i) b) = server_error /\
      updatedAt task' = updatedAt task /\
      title task' = match b_title b with
                    | Some (Js.JStr x) => Js.trim x
                    | _ => title task
                    end /\
      description task' = description task /\
      completed task' = completed task /\
      location task' = location task /\
      photo task' = photo task.
Proof.
  intros Hl Hl1 Hid.
  assert (Hfind : find_task (Some i) (TASKS s) = Some task).
  { rewrite Hl. now apply find_first. }
  unfold put_api_tasks. rewrite Hfind.
  exists (fst (apply_body now b task)). cbn [fst snd].
  split.
  { rewrite Hl at 1. rewrite Hid. now rewrite mutate_split. }
  split; [now rewrite apply_body_id|].
  unfold texts_ok, text_ok, apply_body, assign_text, Js.trim_of.
  destruct (b_title b) as [[| | |x|]|]; destruct (b_description b) as [[| | |y|]|];
    cbn [fst snd andb assign_rest set_title set_description
         id title description completed location photo createdAt updatedAt];
    repeat split; try discriminate; try reflexivity;
    try (intros ->; reflexivity);
    try (intros z [= ->]; reflexivity);
    try (intros z ->; reflexivity).
Qed.

End ServerFacts.

(** ** app.js: keys and the object store *)
Module StoreFacts.
Import Client.

Lemma local_not_server (k : string) :
  Js.startsWith k "local_" = true -> Js.startsWith k "server_" = false.
Proof.
  destruct k as [|a k]; simpl; [discriminate|].
  destruct (Ascii.eqb_spec a "l"%char) as [->|]; [reflexivity|discriminate].
Qed.

Lemma server_key_is_server (i : Z) : Js.startsWith (server_key i) "server_" = true.
Proof. reflexivity. Qed.



Lemma store_get_key (k : string) (s : Store) (t : Task) :
  store_get k s = Some t -> clientId t = k /\ In t s.
Proof.
  induction s as [|u r IH]; simpl; [discriminate|].
  destruct (String.eqb_spec (clientId u) k) as [Hk|Hk].
  - intros [= ->]. auto.
  - intros Hg. destruct (IH Hg). auto.
Qed.

Lemma store_get_insert_other (k : string) (t : Task) (s : Store) :
  clientId t <> k -> store_get k (store_insert t s) = store_get k s.
Proof.
  intros Hne. induction s as [|u r IH]; simpl.
  - destruct (String.eqb_spec (clientId t) k); [contradiction|reflexivity].
  - destruct (String.ltb (clientId t) (clientId u)); simpl.
    + destruct (String.eqb_spec (clientId t) k); [contradiction|reflexivity].
    + now rewrite IH.
Qed.

Lemma store_get_insert_same (t : Task) (s : Store) :
  store_get (clientId t) s = None ->
  store_get (clientId t) (store_insert t s) = Some t.
Proof.
  induction s as [|u r IH]; simpl.
  - now rewrite String.eqb_refl.
  - destruct (String.eqb_spec (clientId u) (clientId t)) as [Hk|Hk]; [discriminate|].
    intros Hr. destruct (String.ltb (clientId t) (clientId u)); simpl.
    + now rewrite String.eqb_refl.
    + destruct (String.eqb_spec (clientId u) (clientId t)); [contradiction|auto].
Qed.

Lemma store_get_delete_same (k : string) (s : Store) :
  store_get k (store_delete k s) = None.
Proof.
  induction s as [|u r IH]; simpl; [reflexivity|].
  destruct (String.eqb_spec (clientId u) k) as [Hk|Hk]; simpl; auto.
  destruct (String.eqb_spec (clientId u) k); [contradiction|auto].
Qed.

Lemma store_get_delete_other (k k' : string) (s : Store) :
  k' <> k -> store_get k (store_delete k' s) = store_get k s.
Proof.
  intros Hne. induction s as [|u r IH]; simpl; [reflexivity|].
  destruct (String.eqb_spec (clientId u) k') as [Hk|Hk]; simpl.
  - destruct (String.eqb_spec (clientId u) k); [congruence|auto].
  - now rewrite IH.
Qed.

Lemma store_get_put_same (t : Task) (s : Store) :
  store_get (clientId t) (store_put t s) = Some t.
Proof.
  unfold store_put. apply store_get_insert_same. apply store_get_delete_same.
Qed.

Lemma store_get_put_other (k : string) (t : Task) (s : Store) :
  clientId t <> k -> store_get k (store_put t s) = store_get k s.
Proof.
  intros Hne. unfold store_put.
  rewrite store_get_insert_other by exact Hne.
  now apply store_get_delete_other.
Qed.

Lemma store_get_in (s : Store) (t : Task) :
  store_ok s -> In t s -> store_get (clientId t) s = Some t.
Proof.
  unfold store_ok. induction s as [|u r IH]; simpl; [contradiction|].
  intros Hnd [->|Hin].
  - now rewrite String.eqb_refl.
  - inversion Hnd as [|? ? Hnot Hrest]; subst.
    destruct (String.eqb_spec (clientId u) (clientId t)) as [Hk|Hk]; auto.
    exfalso. apply Hnot. rewrite Hk. now apply in_map.
Qed.

Lemma store_get_none (k : string) (s : Store) :
  store_get k s = None -> ~ In k (map clientId s).
Proof.
  induction s as [|u r IH]; simpl; [tauto|].
  destruct (String.eqb_spec (clientId u) k) as [Hk|Hk]; [discriminate|].
  intros Hr [Hu|Hin]; [contradiction|]. now apply IH.
Qed.

Lemma filter_keys_nodup (p : Task -> bool) (l : list Task) :
  NoDup (map clientId l) -> NoDup (map clientId (filter p l)).
Proof.
  induction l as [|t r IH]; simpl; [auto|].
  intros Hnd. inversion Hnd as [|? ? Hnot Hrest]; subst.
  destruct (p t); simpl; auto. constructor; auto.
  intros Hin. apply Hnot. apply in_map_iff in Hin as [u [Hu Hin]].
  apply filter_In in Hin as [Hin _]. apply in_map_iff. eauto.
Qed.

Lemma store_insert_perm (t : Task) (s : Store) :
  Permutation (store_insert t s) (t :: s).
Proof.
  induction s as [|u r IH]; simpl; [reflexivity|].
  destruct (String.ltb (clientId t) (clientId u)); [reflexivity|].
  rewrite IH. apply perm_swap.
Qed.

Lemma store_delete_ok (k : string) (s : Store) :
  store_ok s -> store_ok (store_delete k s).
Proof. apply filter_keys_nodup. Qed.

Lemma store_put_ok (t : Task) (s : Store) :
  store_ok s -> store_ok (store_put t s).
Proof.
  intros Hok. unfold store_ok, store_put.
  eapply Permutation_NoDup.
  - apply Permutation_map. symmetry. apply store_insert_perm.
  - simpl. constructor.
    + apply store_get_none. apply store_get_delete_same.
    + now apply store_delete_ok.
Qed.

Lemma visible_insert_perm (t : Task) (l : list Task) :
  Permutation (insert_newest t l) (t :: l).
Proof.
  induction l as [|u r IH]; simpl; [reflexivity|].
  destruct (createdAt u <=? createdAt t); [reflexivity|].
  rewrite IH. apply perm_swap.
Qed.

Lemma visible_sort_perm (l : list Task) : Permutation (sort_newest l) l.
Proof.
  induction l as [|t r IH]; simpl; [reflexivity|].
  rewrite visible_insert_perm. now constructor.
Qed.

Lemma visible_in (s : Store) (t : Task) :
  In t (visible s) <-> In t s /\ deleted t = false.
Proof.
  unfold visible, store_getAll. split.
  - intros Hin. apply (Permutation_in _ (visible_sort_perm _)) in Hin.
    apply filter_In in Hin as [Hin Hd]. split; auto. now destruct (deleted t).
  - intros [Hin Hd]. apply (Permutation_in _ (Permutation_sym (visible_sort_perm _))).
    apply filter_In. split; auto. now rewrite Hd.
Qed.

Lemma visible_keys_nodup (p : Task -> bool) (s : Store) :
  store_ok s -> NoDup (map clientId (filter p (visible s))).
Proof.
  intros Hok. apply filter_keys_nodup. unfold visible, store_getAll.
  eapply Permutation_NoDup.
  - apply Permutation_map. symmetry. apply visible_sort_perm.
  - now apply filter_keys_nodup.
Qed.

End StoreFacts.

(** ** app.js: syncPendingTasks *)
Module SyncFacts.
Import Client SyncSpec StoreFacts.

Lemma pushes_nil (K : Call -> Prop) (n : nat) : pushes K [] (Returned n).
Proof. split; constructor. Qed.

Lemma pushes_app (K : Call -> Prop) (evs1 evs2 : list Call) (n : nat)
    (out : Outcome nat) :
  pushes K evs1 (Returned n) -> pushes K evs2 out -> pushes K (evs1 ++ evs2) out.
Proof.
  intros [HK1 Hf1] [HK2 Hf2]. split; [apply Forall_app; auto|].
  destruct out as [m|e].
  - apply Forall_app; auto.
  - destruct Hf2 as [pre [c [-> [Hpre Hc]]]]. exists (evs1 ++ pre), c.
    rewrite app_assoc. repeat split; auto. apply Forall_app; auto.
Qed.

Lemma pushes_weaken (K K' : Call -> Prop) (evs : list Call) (out : Outcome nat) :
  (forall c, K c -> K' c) -> pushes K evs out -> pushes K' evs out.
Proof.
  intros HK [H1 H2]. split; auto. eapply Forall_impl; eauto.
Qed.

Section WithEnv.

Context {W : Type} `{Env W}.

Lemma for_of_pushes {A} (K : Call -> Prop) (body : A -> nat -> M W nat)
    (l : list A) :
  (forall x, In x l -> forall n (a : App W), exists evs,
     calls (fst (body x n a)) = calls a ++ evs /\ pushes K evs (snd (body x n a))) ->
  forall n (a : App W), exists evs,
    calls (fst (for_of l body n a)) = calls a ++ evs /\
    pushes K evs (snd (for_of l body n a)).
Proof.
  induction l as [|x r IH]; intros Hstep n a; simpl.
  - exists []. rewrite app_nil_r. split; [reflexivity|apply pushes_nil].
  - unfold bind. destruct (Hstep x (or_introl eq_refl) n a) as [evs1 [Hc1 Hp1]].
    destruct (body x n a) as [a1 [m|e]]; simpl in *.
    + destruct (IH (fun y Hy => Hstep y (or_intror Hy)) m a1) as [evs2 [Hc2 Hp2]].
      exists (evs1 ++ evs2). rewrite Hc2, Hc1, app_assoc. split; [reflexivity|].
      eapply pushes_app; eauto.
    + exists evs1. auto.
Qed.

(** The loop bodies, written out. *)
Lemma push_create_eq (task : Task) (n : nat) (a : App W) :
  push_create task n a =
  let '(w, r) := fetch_post (world a) (body_of task) in
  let a1 := called w (CallCreate (clientId task) (body_of task) r) a in
  match r with
  | Rejected m => (a1, Thrown (Network m))
  | Response status body =>
      if response_ok status then
        match body with
        | NotJson m => (a1, Thrown (Syntax m))
        | JsonNull => (a1, Thrown Type_error)
        | JsonData data =>
            match (if cd_ok data then cd_task data else None) with
            | Some serverTask =>
                (set_db (fun s => store_put
                                    (spread serverTask
                                            (server_key (Server.id serverTask)))
                                    (store_delete (clientId task) s)) a1,
                 Returned (S n))
            | None => (a1, Returned n)
            end
        end
      else (a1, Thrown (Http status))
  end.
Proof.
  unfold push_create, try_catch, bind, fetch_create.
  destruct (fetch_post (world a) (body_of task)) as [w [m|status body]]; simpl;
    [reflexivity|].
  destruct (response_ok status); simpl; [|reflexivity].
  destruct body as [m| |data]; simpl; [reflexivity|reflexivity|].
  destruct (if cd_ok data then cd_task data else None); reflexivity.
Qed.

Lemma push_change_eq (task : Task) (n : nat) (a : App W) :
  push_change task n a =
  let sid := serverId_of (clientId task) in
  if deleted task then
    let '(w, r) := fetch_delete (world a) sid in
    let a1 := called w (CallDelete (clientId task) sid r) a in
    match r with
    | Rejected m => (a1, Thrown (Network m))
    | Response status _ =>
        if response_ok status
        then (set_db (store_delete (clientId task)) a1, Returned (S n))
        else (a1, Returned n)
    end
  else if dirty task then
    let '(w, r) := fetch_put (world a) sid (body_of task) in
    let a1 := called w (CallUpdate (clientId task) sid (body_of task) r) a in
    match r with
    | Rejected m => (a1, Thrown (Network m))
    | Response status body =>
        if response_ok status then
          match body with
          | NotJson m => (a1, Thrown (Syntax m))
          | JsonNull => (a1, Thrown Type_error)
          | JsonData data =>
              if ud_ok data
              then (set_db (store_put (cleaned (now w) task)) a1, Returned (S n))
              else (a1, Returned n)
          end
        else (a1, Thrown (Http status))
    end
  else (a, Returned n).
Proof.
  unfold push_change. destruct (deleted task).
  - unfold try_catch, bind, fetch_remove. simpl.
    destruct (fetch_delete (world a) (serverId_of (clientId task)))
      as [w [m|status body]]; simpl; [reflexivity|].
    destruct (response_ok status); reflexivity.
  - destruct (dirty task); [|reflexivity].
    unfold try_catch, bind, fetch_update. simpl.
    destruct (fetch_put (world a) (serverId_of (clientId task)) (body_of task))
      as [w [m|status body]]; simpl; [reflexivity|].
    destruct (response_ok status); simpl; [|reflexivity].
    destruct body as [m| |data]; simpl; [reflexivity|reflexivity|].
    destruct (ud_ok data); reflexivity.
Qed.

Lemma merge_one_eq (serverTask : Server.Task) (a : App W) :
  merge_one serverTask tt a =
  let cid := server_key (Server.id serverTask) in
  (if match store_get cid (db a) with
      | None => true
      | Some e => negb (dirty e)
      end
   then set_db (store_put (cleaned (now (world a)) (spread serverTask cid))) a
   else a,
   Returned tt).
Proof.
  unfold merge_one, bind, gets. simpl.
  destruct (match store_get _ (db a) with None => true | Some e => negb (dirty e) end);
    reflexivity.
Qed.

Lemma for_of_app {A S} (body : A -> S -> M W S) (l1 l2 : list A) (s : S)
    (a : App W) :
  for_of (l1 ++ l2) body s a =
  match for_of l1 body s a with
  | (a1, Returned s1) => for_of l2 body s1 a1
  | (a1, Thrown e) => (a1, Thrown e)
  end.
Proof.
  revert s a. induction l1 as [|x r IH]; intros s a; simpl; [reflexivity|].
  unfold bind. destruct (body x s a) as [a1 [s1|e]]; [apply IH|reflexivity].
Qed.

Lemma for_of_inv {A S} (P : App W -> Prop) (body : A -> S -> M W S) (l : list A) :
  (forall x, In x l -> forall s a, P a -> P (fst (body x s a))) ->
  forall s a, P a -> P (fst (for_of l body s a)).
Proof.
  induction l as [|x r IH]; intros Hstep s a Ha; simpl; [exact Ha|].
  unfold bind. pose proof (Hstep x (or_introl eq_refl) s a Ha) as H1.
  destruct (body x s a) as [a1 [s1|e]]; simpl in *; [|exact H1].
  apply IH; [intros y Hy; apply Hstep; now right|exact H1].
Qed.

Lemma evolves_refl (s : Store) : evolves s s.
Proof. intros k. now left. Qed.

Lemma evolves_trans (s1 s2 s3 : Store) :
  evolves s1 s2 -> evolves s2 s3 -> evolves s1 s3.
Proof.
  intros H12 H23 k. destruct (H23 k) as [Heq|[Hs|Hl]].
  - rewrite Heq. apply H12.
  - right. now left.
  - right. now right.
Qed.

Lemma evolves_put (t : Task) (s : Store) :
  dirty t = false -> Js.startsWith (clientId t) "server_" = true ->
  evolves s (store_put t s).
Proof.
  intros Hd Hs k. destruct (String.eqb_spec (clientId t) k) as [<-|Hne].
  - right. left. split; auto. exists t. split; auto. apply store_get_put_same.
  - left. now apply store_get_put_other.
Qed.

Lemma evolves_delete (k0 : string) (s : Store) :
  Js.startsWith k0 "local_" = true -> evolves s (store_delete k0 s).
Proof.
  intros Hl k. destruct (String.eqb_spec k0 k) as [<-|Hne].
  - right. right. split; auto. apply store_get_delete_same.
  - left. now apply store_get_delete_other.
Qed.

Lemma is_local_key (t : Task) :
  is_local t = true -> Js.startsWith (clientId t) "local_" = true.
Proof. unfold is_local. intros Ht. now apply andb_true_iff in Ht. Qed.

Lemma push_create_evolves (task : Task) (n : nat) (a : App W) :
  is_local task = true -> evolves (db a) (db (fst (push_create task n a))).
Proof.
  intros Hl. rewrite push_create_eq.
  destruct (fetch_post (world a) (body_of task)) as [w [m|status body]]; simpl;
    [apply evolves_refl|].
  destruct (response_ok status); simpl; [|apply evolves_refl].
  destruct body as [m| |data]; simpl; [apply evolves_refl|apply evolves_refl|].
  destruct (if cd_ok data then cd_task data else None); simpl;
    [|apply evolves_refl].
  eapply evolves_trans.
  - apply evolves_delete. exact (is_local_key task Hl).
  - apply evolves_put; reflexivity.
Qed.

Lemma push_change_evolves (task : Task) (n : nat) (a : App W) :
  deleted task = false -> is_server task = true ->
  evolves (db a) (db (fst (push_change task n a))).
Proof.
  intros Hd Hs. rewrite push_change_eq. simpl. rewrite Hd.
  destruct (dirty task); [|apply evolves_refl].
  destruct (fetch_put (world a) (serverId_of (clientId task)) (body_of task))
    as [w [m|status body]]; simpl; [apply evolves_refl|].
  destruct (response_ok status); simpl; [|apply evolves_refl].
  destruct body as [m| |data]; simpl; [apply evolves_refl|apply evolves_refl|].
  destruct (ud_ok data); simpl; [|apply evolves_refl].
  apply evolves_put; [reflexivity|exact Hs].
Qed.

Lemma merge_one_evolves (serverTask : Server.Task) (a : App W) :
  evolves (db a) (db (fst (merge_one serverTask tt a))).
Proof.
  rewrite merge_one_eq. simpl.
  destruct (match store_get _ (db a) with None => true | Some e => negb (dirty e) end);
    simpl; [|apply evolves_refl].
  apply evolves_put; reflexivity.
Qed.

Lemma creates_evolve (l : list Task) (n : nat) (a : App W) :
  Forall (fun t => is_local t = true) l ->
  evolves (db a) (db (fst (for_of l push_create n a))).
Proof.
  intros Hl. apply for_of_inv with (P := fun a' => evolves (db a) (db a'));
    [|apply evolves_refl].
  intros t Ht m a' Ha'. eapply evolves_trans; [exact Ha'|].
  apply push_create_evolves. rewrite Forall_forall in Hl. auto.
Qed.

Lemma changes_evolve (l : list Task) (n : nat) (a : App W) :
  Forall (fun t => deleted t = false /\ is_server t = true) l ->
  evolves (db a) (db (fst (for_of l push_change n a))).
Proof.
  intros Hl. apply for_of_inv with (P := fun a' => evolves (db a) (db a'));
    [|apply evolves_refl].
  intros t Ht m a' Ha'. eapply evolves_trans; [exact Ha'|].
  rewrite Forall_forall in Hl. destruct (Hl t Ht). now apply push_change_evolves.
Qed.

Lemma merges_evolve (l : list Server.Task) (a : App W) :
  evolves (db a) (db (fst (for_of l merge_one tt a))).
Proof.
  apply for_of_inv with (P := fun a' => evolves (db a) (db a'));
    [|apply evolves_refl].
  intros t Ht [] a' Ha'. eapply evolves_trans; [exact Ha'|].
  apply merge_one_evolves.
Qed.

Lemma local_tasks_local (s : Store) :
  Forall (fun t => is_local t = true) (filter is_local (visible s)).
Proof. apply Forall_forall. intros t Ht. now apply filter_In in Ht. Qed.

Lemma server_tasks_live (s : Store) :
  Forall (fun t => deleted t = false /\ is_server t = true)
         (filter is_server (visible s)).
Proof.
  apply Forall_forall. intros t Ht. apply filter_In in Ht as [Hv Hs].
  apply visible_in in Hv as [_ Hd]. auto.
Qed.

(** The merge loop talks to nobody and never throws. *)
Lemma merges_quiet (l : list Server.Task) (a : App W) :
  world (fst (for_of l merge_one tt a)) = world a /\
  calls (fst (for_of l merge_one tt a)) = calls a /\
  snd (for_of l merge_one tt a) = Returned tt.
Proof.
  revert a. induction l as [|x r IH]; intros a; simpl; [auto|].
  unfold bind. rewrite merge_one_eq. simpl.
  destruct (match store_get _ (db a) with None => true | Some e => negb (dirty e) end);
    [|apply IH].
  match goal with |- context [for_of r merge_one tt ?b] =>
    destruct (IH b) as [Hw [Hc Hr]] end.
  rewrite Hw, Hc, Hr. auto.
Qed.

Lemma pull_eq (a : App W) :
  pull a =
  let '(w, r) := fetch_get (world a) in
  let a1 := called w (CallList r) a in
  match r with
  | Rejected _ => (a1, Returned tt)
  | Response status (JsonData data) =>
      if response_ok status then
        match (if ld_ok data then ld_tasks data else None) with
        | Some tasks => (fst (for_of tasks merge_one tt a1), Returned tt)
        | None => (a1, Returned tt)
        end
      else (a1, Returned tt)
  | Response _ _ => (a1, Returned tt)
  end.
Proof.
  unfold pull, try_catch, bind, fetch_list.
  destruct (fetch_get (world a)) as [w [m|status [m| |data]]]; simpl;
    [reflexivity|now destruct (response_ok status)
    |now destruct (response_ok status)|].
  destruct (response_ok status); simpl; [|reflexivity].
  destruct (if ld_ok data then ld_tasks data else None) as [tasks|]; simpl;
    [|reflexivity].
  destruct (merges_quiet tasks
              (called w (CallList (Response status (JsonData data))) a))
    as [_ [_ Hret]].
  destruct (for_of tasks merge_one tt _) as [a2 out]. simpl in *. now rewrite Hret.
Qed.

Lemma pull_returns (a : App W) : snd (pull a) = Returned tt.
Proof.
  rewrite pull_eq.
  destruct (fetch_get (world a)) as [w [m|status [m| |data]]]; simpl;
    [reflexivity|reflexivity|reflexivity|].
  destruct (response_ok status); [|reflexivity].
  destruct (if ld_ok data then ld_tasks data else None); reflexivity.
Qed.

Lemma pull_calls (a : App W) :
  calls (fst (pull a)) = calls a ++ [CallList (snd (fetch_get (world a)))].
Proof.
  rewrite pull_eq.
  destruct (fetch_get (world a)) as [w [m|status [m| |data]]]; simpl;
    [reflexivity|reflexivity|reflexivity|].
  destruct (response_ok status); [|reflexivity].
  destruct (if ld_ok data then ld_tasks data else None) as [tasks|]; [|reflexivity].
  simpl.
  now destruct (merges_quiet tasks
                  (called w (CallList (Response status (JsonData data))) a))
    as [_ [-> _]].
Qed.

Lemma pull_evolves (a : App W) : evolves (db a) (db (fst (pull a))).
Proof.
  rewrite pull_eq.
  destruct (fetch_get (world a)) as [w [m|status [m| |data]]]; simpl;
    [apply evolves_refl|apply evolves_refl|apply evolves_refl|].
  destruct (response_ok status); [|apply evolves_refl].
  destruct (if ld_ok data then ld_tasks data else None) as [tasks|];
    [|apply evolves_refl].
  simpl.
  apply (merges_evolve tasks
           (called w (CallList (Response status (JsonData data))) a)).
Qed.

(** *** The three phases in sequence *)

Lemma sync_eq (a : App W) :
  onLine (world a) = true ->
  syncPendingTasks a =
  match for_of (filter is_local (visible (db a))) push_create 0%nat a with
  | (a1, Returned n1) => after_phase1 n1 a1
  | (a1, Thrown e) => (a1, Thrown e)
  end.
Proof.
  intros Hon. unfold syncPendingTasks, bind, gets. rewrite Hon. simpl.
  unfold phase1, bind, getAllTasksLocal, gets. simpl.
  destruct (for_of _ push_create 0%nat a) as [a1 [n1|e]]; [|reflexivity].
  unfold after_phase1, phase2, bind, getAllTasksLocal, gets. simpl.
  destruct (for_of _ push_change n1 a1) as [a2 [n2|e]]; [|reflexivity].
  unfold finish. pose proof (pull_returns a2) as Hp.
  destruct (pull a2) as [a3 out]. simpl in *. subst out. reflexivity.
Qed.

Lemma sync_offline (a : App W) :
  onLine (world a) = false -> syncPendingTasks a = (a, Thrown Offline).
Proof. intros Hoff. unfold syncPendingTasks, bind, gets. now rewrite Hoff. Qed.

Lemma render_db (a : App W) :
  db (fst (renderTasks a)) = db a /\ calls (fst (renderTasks a)) = calls a /\
  world (fst (renderTasks a)) = world a.
Proof. repeat split. Qed.

Lemma finish_evolves (n : nat) (a : App W) : evolves (db a) (db (fst (finish n a))).
Proof. unfold finish. simpl. apply pull_evolves. Qed.

Lemma after_phase1_evolves (n : nat) (a : App W) :
  evolves (db a) (db (fst (after_phase1 n a))).
Proof.
  unfold after_phase1.
  pose proof (changes_evolve _ n a (server_tasks_live (db a))) as Hc.
  destruct (for_of _ push_change n a) as [a2 [n2|e]]; simpl in *; [|exact Hc].
  eapply evolves_trans; [exact Hc|]. apply pull_evolves.
Qed.

(** *** The requests of the two push loops *)

Lemma push_create_pushes (l : list Task) (task : Task) (n : nat) (a : App W) :
  In task l ->
  exists evs, calls (fst (push_create task n a)) = calls a ++ evs /\
              pushes (create_for l) evs (snd (push_create task n a)).
Proof.
  intros Hin. rewrite push_create_eq.
  destruct (fetch_post (world a) (body_of task)) as [w r].
  exists [CallCreate (clientId task) (body_of task) r].
  assert (HK : Forall (create_for l) [CallCreate (clientId task) (body_of task) r]).
  { constructor; [|constructor]. exists task, r. auto. }
  assert (Hfail : forall e out,
             failure_of (CallCreate (clientId task) (body_of task) r) = Some e ->
             out = Thrown e ->
             pushes (create_for l)
                    [CallCreate (clientId task) (body_of task) r] out).
  { intros e out He ->. split; [exact HK|].
    exists [], (CallCreate (clientId task) (body_of task) r).
    repeat split; [constructor|exact He]. }
  destruct r as [m|status body]; simpl.
  - split; [reflexivity|]. now apply (Hfail (Network m)).
  - destruct (response_ok status) eqn:Hok.
    + destruct body as [m| |data]; simpl.
      * split; [reflexivity|]. apply (Hfail (Syntax m)); [|reflexivity].
        simpl. now rewrite Hok.
      * split; [reflexivity|]. apply (Hfail Type_error); [|reflexivity].
        simpl. now rewrite Hok.
      * assert (Hnone : Forall (fun c => failure_of c = None)
                  [CallCreate (clientId task) (body_of task)
                              (Response status (JsonData data))]).
        { constructor; [|constructor]. simpl. now rewrite Hok. }
        destruct (if cd_ok data then cd_task data else None); simpl;
          (split; [reflexivity|split; [exact HK|exact Hnone]]).
    + simpl. split; [reflexivity|]. apply (Hfail (Http status)); [|reflexivity].
      simpl. now rewrite Hok.
Qed.

Lemma push_change_pushes (l : list Task) (task : Task) (n : nat) (a : App W) :
  In task l -> deleted task = false ->
  exists evs, calls (fst (push_change task n a)) = calls a ++ evs /\
              pushes (update_for l) evs (snd (push_change task n a)).
Proof.
  intros Hin Hd. rewrite push_change_eq. simpl. rewrite Hd.
  destruct (dirty task).
  2:{ exists []. simpl. rewrite app_nil_r. split; [reflexivity|apply pushes_nil]. }
  destruct (fetch_put (world a) (serverId_of (clientId task)) (body_of task))
    as [w r].
  set (c := CallUpdate (clientId task) (serverId_of (clientId task))
                       (body_of task) r).
  exists [c].
  assert (HK : Forall (update_for l) [c]).
  { constructor; [|constructor]. exists task, r. auto. }
  subst c.
  assert (Hfail : forall e out,
             failure_of (CallUpdate (clientId task) (serverId_of (clientId task))
                                    (body_of task) r) = Some e ->
             out = Thrown e ->
             pushes (update_for l)
                    [CallUpdate (clientId task) (serverId_of (clientId task))
                                (body_of task) r] out).
  { intros e out He ->. split; [exact HK|].
    eexists [], _. repeat split; [constructor|exact He]. }
  destruct r as [m|status body]; simpl.
  - split; [reflexivity|]. now apply (Hfail (Network m)).
  - destruct (response_ok status) eqn:Hok.
    + destruct body as [m| |data]; simpl.
      * split; [reflexivity|]. apply (Hfail (Syntax m)); [|reflexivity].
        simpl. now rewrite Hok.
      * split; [reflexivity|]. apply (Hfail Type_error); [|reflexivity].
        simpl. now rewrite Hok.
      * assert (Hnone : Forall (fun c => failure_of c = None)
                  [CallUpdate (clientId task) (serverId_of (clientId task))
                              (body_of task) (Response status (JsonData data))]).
        { constructor; [|constructor]. simpl. now rewrite Hok. }
        destruct (ud_ok data); simpl;
          (split; [reflexivity|split; [exact HK|exact Hnone]]).
    + simpl. split; [reflexivity|]. apply (Hfail (Http status)); [|reflexivity].
      simpl. now rewrite Hok.
Qed.

Lemma creates_trace (l : list Task) (n : nat) (a : App W) :
  exists evs, calls (fst (for_of l push_create n a)) = calls a ++ evs /\
              pushes (create_for l) evs (snd (for_of l push_create n a)).
Proof.
  apply for_of_pushes. intros t Ht m b. now apply push_create_pushes.
Qed.

Lemma changes_trace (l : list Task) (n : nat) (a : App W) :
  Forall (fun t => deleted t = false /\ is_server t = true) l ->
  exists evs, calls (fst (for_of l push_change n a)) = calls a ++ evs /\
              pushes (update_for l) evs (snd (for_of l push_change n a)).
Proof.
  intros Hl. apply for_of_pushes. intros t Ht m b.
  rewrite Forall_forall in Hl. destruct (Hl t Ht). now apply push_change_pushes.
Qed.

(** *** What the loops leave alone *)

Lemma server_key_not (k : string) (i : Z) :
  Js.startsWith k "server_" = false -> server_key i <> k.
Proof. intros Hk <-. now rewrite server_key_is_server in Hk. Qed.

Lemma creates_frame (l : list Task) (n : nat) (a : App W) (k : string) :
  ~ In k (map clientId l) -> Js.startsWith k "server_" = false ->
  store_get k (db (fst (for_of l push_create n a))) = store_get k (db a).
Proof.
  intros Hk Hs.
  apply for_of_inv with (P := fun a' => store_get k (db a') = store_get k (db a));
    [|reflexivity].
  intros t Ht m b Hb. rewrite <- Hb. rewrite push_create_eq.
  destruct (fetch_post (world b) (body_of t)) as [w [msg|status body]]; simpl;
    [reflexivity|].
  destruct (response_ok status); simpl; [|reflexivity].
  destruct body as [msg| |data]; simpl; [reflexivity|reflexivity|].
  destruct (if cd_ok data then cd_task data else None); simpl; [|reflexivity].
  rewrite store_get_put_other by (simpl; now apply server_key_not).
  apply store_get_delete_other. intros Heq. apply Hk. rewrite <- Heq.
  now apply in_map.
Qed.

Lemma changes_frame (l : list Task) (n : nat) (a : App W) (k : string) :
  ~ In k (map clientId l) ->
  store_get k (db (fst (for_of l push_change n a))) = store_get k (db a).
Proof.
  intros Hk.
  apply for_of_inv with (P := fun a' => store_get k (db a') = store_get k (db a));
    [|reflexivity].
  intros t Ht m b Hb. rewrite <- Hb. rewrite push_change_eq.
  assert (Hne : clientId t <> k).
  { intros Heq. apply Hk. rewrite <- Heq. now apply in_map. }
  simpl. destruct (deleted t).
  - destruct (fetch_delete (world b) (serverId_of (clientId t)))
      as [w [msg|status body]]; simpl; [reflexivity|].
    destruct (response_ok status); simpl; [|reflexivity].
    now apply store_get_delete_other.
  - destruct (dirty t); [|reflexivity].
    destruct (fetch_put (world b) (serverId_of (clientId t)) (body_of t))
      as [w [msg|status body]]; simpl; [reflexivity|].
    destruct (response_ok status); simpl; [|reflexivity].
    destruct body as [msg| |data]; simpl; [reflexivity|reflexivity|].
    destruct (ud_ok data); simpl; [|reflexivity].
    now apply store_get_put_other.
Qed.

Lemma creates_ok (l : list Task) (n : nat) (a : App W) :
  store_ok (db a) -> store_ok (db (fst (for_of l push_create n a))).
Proof.
  apply for_of_inv with (P := fun a' => store_ok (db a')).
  intros t Ht m b Hb. rewrite push_create_eq.
  destruct (fetch_post (world b) (body_of t)) as [w [msg|status body]]; simpl;
    [exact Hb|].
  destruct (response_ok status); simpl; [|exact Hb].
  destruct body as [msg| |data]; simpl; [exact Hb|exact Hb|].
  destruct (if cd_ok data then cd_task data else None); simpl; [|exact Hb].
  apply store_put_ok. now apply store_delete_ok.
Qed.

(** *** The merge loop of phase 3 *)





(** *** The whole of syncPendingTasks *)

Lemma phase1_eq (a : App W) :
  phase1 a = for_of (filter is_local (visible (db a))) push_create 0%nat a.
Proof. reflexivity. Qed.


Lemma sync_split (a a1 : App W) (l1 l2 : list Task) (n1 : nat) :
  onLine (world a) = true ->
  filter is_local (visible (db a)) = l1 ++ l2 ->
  for_of l1 push_create 0%nat a = (a1, Returned n1) ->
  syncPendingTasks a =
  match for_of l2 push_create n1 a1 with
  | (a2, Returned n2) => after_phase1 n2 a2
  | (a2, Thrown e) => (a2, Thrown e)
  end.
Proof.
  intros Hon Hl H1. rewrite sync_eq by exact Hon.
  rewrite Hl, for_of_app, H1. reflexivity.
Qed.

Lemma tail_evolves (l : list Task) (n : nat) (a : App W) :
  Forall (fun t => is_local t = true) l ->
  evolves (db a)
    (db (fst (match for_of l push_create n a with
              | (a2, Returned n2) => after_phase1 n2 a2
              | (a2, Thrown e) => (a2, Thrown e)
              end))).
Proof.
  intros Hl. pose proof (creates_evolve l n a Hl) as Hc.
  destruct (for_of l push_create n a) as [a2 [n2|e]]; simpl in *; [|exact Hc].
  eapply evolves_trans; [exact Hc|]. apply after_phase1_evolves.
Qed.

Lemma for_of_skip {A S} (body : A -> S -> M W S) (l : list A) :
  (forall x, In x l -> forall s a, body x s a = (a, Returned s)) ->
  forall s a, for_of l body s a = (a, Returned s).
Proof.
  induction l as [|x r IH]; intros Hskip s a; simpl; [reflexivity|].
  unfold bind. rewrite (Hskip x (or_introl eq_refl)).
  apply IH. intros y Hy. apply Hskip. now right.
Qed.

Lemma filter_nil {A} (p : A -> bool) (l : list A) :
  (forall x, In x l -> p x = false) -> filter p l = [].
Proof.
  induction l as [|x r IH]; simpl; intros Hp; [reflexivity|].
  rewrite (Hp x (or_introl eq_refl)). apply IH. intros y Hy. apply Hp. now right.
Qed.

Lemma create_is_push (l : list Task) (c : Call) : create_for l c -> is_push c.
Proof. intros [t [r [_ ->]]]. exact I. Qed.

Lemma update_is_push (l : list Task) (c : Call) : update_for l c -> is_push c.
Proof. intros [t [r [_ ->]]]. exact I. Qed.

Lemma pushes_returned (evs : list Call) (n : nat) :
  pushes is_push evs (Returned n) ->
  Forall (fun c => is_push c /\ failure_of c = None) evs.
Proof.
  intros [HK Hf]. rewrite Forall_forall in *. intros c Hc. split; auto.
Qed.

Lemma pushes_thrown (evs0 evs : list Call) (e : Error) :
  Forall (fun c => is_push c /\ failure_of c = None) evs0 ->
  pushes is_push evs (Thrown e) -> reported (evs0 ++ evs) (Thrown e).
Proof.
  intros H0 [HK [pre [c [-> [Hpre Hc]]]]]. apply Forall_app in HK as [HKpre HKc].
  exists (evs0 ++ pre), c. rewrite app_assoc. repeat split; auto.
  - apply Forall_app. split; auto. rewrite Forall_forall in *. intros x Hx. auto.
  - now inversion HKc.
Qed.

Lemma sync_trace (a : App W) :
  onLine (world a) = true ->
  exists evs, calls (fst (syncPendingTasks a)) = calls a ++ evs /\
              reported evs (snd (syncPendingTasks a)).
Proof.
  intros Hon. rewrite sync_eq by exact Hon.
  destruct (creates_trace (filter is_local (visible (db a))) 0%nat a)
    as [evs1 [Hc1 Hp1]].
  apply (pushes_weaken _ is_push) in Hp1; [|apply create_is_push].
  destruct (for_of _ push_create 0%nat a) as [a1 [n1|e]]; simpl in *.
  2:{ exists evs1. split; [exact Hc1|].
      apply (pushes_thrown [] evs1 e); [constructor|exact Hp1]. }
  unfold after_phase1.
  destruct (changes_trace _ n1 a1 (server_tasks_live (db a1))) as [evs2 [Hc2 Hp2]].
  apply (pushes_weaken _ is_push) in Hp2; [|apply update_is_push].
  apply pushes_returned in Hp1.
  destruct (for_of _ push_change n1 a1) as [a2 [n2|e]]; simpl in *.
  - exists (evs1 ++ evs2 ++ [CallList (snd (fetch_get (world a2)))]).
    rewrite pull_calls, Hc2, Hc1, <- !app_assoc. split; [reflexivity|].
    exists (evs1 ++ evs2), (snd (fetch_get (world a2))).
    rewrite <- app_assoc. split; [reflexivity|].
    apply Forall_app. split; [exact Hp1|]. now apply pushes_returned in Hp2.
  - exists (evs1 ++ evs2). rewrite Hc2, Hc1, <- app_assoc. split; [reflexivity|].
    now apply pushes_thrown.
Qed.

(** C1, as amended: online, on a store whose records are all consistent,
    syncPendingTasks issues no create, update or delete; it issues exactly
    one request, the GET of phase 3, and returns the change count 0. *)
Theorem sync_consistent_pulls_only (a : App W) :
  onLine (world a) = true ->
  Forall consistent (db a) ->
  snd (syncPendingTasks a) = Returned 0%nat /\
  calls (fst (syncPendingTasks a))
  = calls a ++ [CallList (snd (fetch_get (world a)))].
Proof.
  intros Hon Hall. rewrite Forall_forall in Hall.
  rewrite sync_eq by exact Hon.
  rewrite (filter_nil is_local).
  2:{ intros t Ht. apply visible_in in Ht as [Ht _].
      destruct (Hall t Ht) as [Hl _]. unfold is_local. rewrite Hl.
      apply andb_false_r. }
  simpl. unfold after_phase1. rewrite for_of_skip.
  2:{ intros t Ht n b. apply filter_In in Ht as [Ht _].
      apply visible_in in Ht as [Ht _]. destruct (Hall t Ht) as [_ [Hd Hx]].
      rewrite push_change_eq. simpl. now rewrite Hx, Hd. }
  simpl. split; [reflexivity|]. apply pull_calls.
Qed.

(** C2: a [local_] task whose create succeeds is remapped.  When the loop
    of phase 1 reaches the task [A] and its POST is answered with an OK
    status and a body [{ ok: true, task }], then right after that iteration
    the record under the key of [A] is gone and the key made of [server_]
    and the digits of [task.id] holds the server task, clean; and when
    syncPendingTasks ends (whether it returns or a later request fails) the
    key of [A] is still absent and that [server_] key holds a record with
    that clientId and dirty = false.  The id is below 10^21 in magnitude,
    as every id that server.js assigns is: a template literal prints such
    a number with all its digits. *)
Theorem create_remaps
    (a a1 : App W) (l1 l2 : list Task) (A : Task) (n1 : nat)
    (w : W) (status : Z) (data : CreateData) (serverTask : Server.Task) :
  onLine (world a) = true ->
  filter is_local (visible (db a)) = l1 ++ A :: l2 ->
  for_of l1 push_create 0%nat a = (a1, Returned n1) ->
  fetch_post (world a1) (body_of A) = (w, Response status (JsonData data)) ->
  response_ok status = true ->
  cd_ok data = true ->
  cd_task data = Some serverTask ->
  Z.abs (Server.id serverTask) < 10 ^ 21 ->
  let key := ("server_" ++ Js.toString (Server.id serverTask))%string in
  let after_A := db (fst (push_create A n1 a1)) in
  let final := db (fst (syncPendingTasks a)) in
  Js.startsWith (clientId A) "local_" = true /\
  store_get (clientId A) after_A = None /\
  store_get key after_A = Some (spread serverTask key) /\
  store_get (clientId A) final = None /\
  exists t, store_get key final = Some t /\ clientId t = key /\ dirty t = false.
Proof.
  intros Hon Hl H1 Hf Hok Hdok Htask _.
  change ("server_" ++ Js.toString (Server.id serverTask))%string
    with (server_key (Server.id serverTask)).
  intros key after_A final.
  pose proof (local_tasks_local (db a)) as Hloc. rewrite Hl in Hloc.
  apply Forall_app in Hloc as [_ Hloc].
  inversion Hloc as [|? ? HA Hl2]; subst.
  pose proof (is_local_key A HA) as HAk.
  assert (Hne : key <> clientId A).
  { apply server_key_not. now apply local_not_server. }
  assert (Hstep : push_create A n1 a1 =
            (set_db (fun s => store_put (spread serverTask key)
                                        (store_delete (clientId A) s))
                    (called w (CallCreate (clientId A) (body_of A)
                                          (Response status (JsonData data))) a1),
             Returned (S n1))).
  { rewrite push_create_eq, Hf, Hok, Hdok, Htask. reflexivity. }
  assert (HgA : store_get (clientId A) after_A = None).
  { unfold after_A. rewrite Hstep. simpl.
    rewrite store_get_put_other by exact Hne. apply store_get_delete_same. }
  assert (Hgk : store_get key after_A = Some (spread serverTask key)).
  { unfold after_A. rewrite Hstep. simpl.
    apply (store_get_put_same (spread serverTask key)). }
  assert (Hev : evolves after_A final).
  { unfold after_A, final. rewrite (sync_split a a1 l1 (A :: l2) n1 Hon Hl H1).
    simpl. unfold bind. rewrite Hstep. simpl.
    apply (tail_evolves l2). exact Hl2. }
  split; [exact HAk|]. split; [exact HgA|]. split; [exact Hgk|]. split.
  - destruct (Hev (clientId A)) as [Heq|[[Hs _]|[_ Hn]]].
    + now rewrite Heq.
    + rewrite (local_not_server _ HAk) in Hs. discriminate.
    + exact Hn.
  - destruct (Hev key) as [Heq|[[_ [t [Ht Hd]]]|[Hk _]]].
    + exists (spread serverTask key). rewrite Heq. auto.
    + exists t. repeat split; auto. now apply store_get_key in Ht.
    + discriminate.
Qed.



Lemma nodup_disjoint {A} (l1 l2 : list A) (x : A) :
  NoDup (l1 ++ l2) -> In x l1 -> In x l2 -> False.
Proof.
  induction l1 as [|y l1 IH]; simpl; [tauto|].
  intros Hnd [->|H1] H2; inversion Hnd as [|? ? Hnot Hrest]; subst.
  - apply Hnot. apply in_or_app. now right.
  - now apply IH.
Qed.

Lemma push_create_fails (A : Task) (n : nat) (a : App W) (w : W)
    (r : Fetch CreateData) (e : Error) :
  fetch_post (world a) (body_of A) = (w, r) -> answer_failure r = Some e ->
  push_create A n a
  = (called w (CallCreate (clientId A) (body_of A) r) a, Thrown e).
Proof.
  intros Hf He. rewrite push_create_eq, Hf. destruct r as [m|status body]; simpl in *.
  - now injection He as <-.
  - destruct (response_ok status); [|now injection He as <-].
    destruct body as [m| |data]; simpl in He;
      [now injection He as <-|now injection He as <-|discriminate].
Qed.

(** C4: a failed create aborts the call.  When the loop of phase 1 reaches
    the task [A] and its POST is rejected, answered with a status outside
    200-299, or answered OK with a body that cannot be read,
    syncPendingTasks throws that error; the requests it has issued
    are the creates of the tasks before [A] and the failed one, in
    particular none for a task after [A] in the iteration order; and the
    record of [A] is unchanged, still under its [local_] key. *)
Theorem create_failure_aborts
    (a a1 : App W) (l1 l2 : list Task) (A : Task) (n1 : nat)
    (w : W) (r : Fetch CreateData) (e : Error) :
  store_ok (db a) ->
  onLine (world a) = true ->
  filter is_local (visible (db a)) = l1 ++ A :: l2 ->
  for_of l1 push_create 0%nat a = (a1, Returned n1) ->
  fetch_post (world a1) (body_of A) = (w, r) ->
  answer_failure r = Some e ->
  let failed := CallCreate (clientId A) (body_of A) r in
  syncPendingTasks a = (called w failed a1, Thrown e) /\
  (exists evs,
      calls (fst (syncPendingTasks a)) = calls a ++ evs ++ [failed] /\
      Forall (create_for l1) evs /\
      Forall (fun t => Forall (fun c => ~ call_for (clientId t) c)
                              (evs ++ [failed])) l2) /\
  store_get (clientId A) (db (fst (syncPendingTasks a))) = Some A /\
  Js.startsWith (clientId A) "local_" = true.
Proof.
  intros Hok Hon Hl H1 Hf He failed.
  assert (Hsync : syncPendingTasks a = (called w failed a1, Thrown e)).
  { rewrite (sync_split a a1 l1 (A :: l2) n1 Hon Hl H1). simpl. unfold bind.
    now rewrite (push_create_fails A n1 a1 w r e Hf He). }
  pose proof (visible_keys_nodup is_local (db a) Hok) as Hnd. rewrite Hl in Hnd.
  rewrite map_app in Hnd. simpl in Hnd.
  pose proof (local_tasks_local (db a)) as Hloc. rewrite Hl in Hloc.
  apply Forall_app in Hloc as [_ Hloc]. inversion Hloc as [|? ? HA _]; subst.
  pose proof (is_local_key A HA) as HAk.
  destruct (creates_trace l1 0%nat a) as [evs [Hc [HK _]]]. rewrite H1 in Hc.
  simpl in Hc. rewrite Hsync. simpl.
  split; [reflexivity|]. split; [|split; [|exact HAk]].
  - exists evs. rewrite Hc, <- app_assoc. split; [reflexivity|]. split; [exact HK|].
    apply Forall_forall. intros t Ht. apply Forall_app. split.
    + apply Forall_forall. intros c Hc'. rewrite Forall_forall in HK.
      destruct (HK c Hc') as [u [r' [Hu ->]]]. simpl. intros Heq.
      apply (nodup_disjoint _ _ (clientId u) Hnd); [now apply in_map|].
      right. rewrite Heq. now apply in_map.
    + constructor; [|constructor]. simpl. intros Heq.
      apply NoDup_remove_2 in Hnd. apply Hnd. apply in_or_app. right.
      rewrite Heq. now apply in_map.
  - pose proof (creates_frame l1 0%nat a (clientId A)) as Hfr. rewrite H1 in Hfr.
    simpl in Hfr. rewrite Hfr.
    + apply store_get_in; [exact Hok|].
      assert (HinA : In A (filter is_local (visible (db a)))).
      { rewrite Hl. apply in_or_app. right. now left. }
      apply filter_In in HinA as [HinA _]. now apply visible_in in HinA.
    + apply NoDup_remove_2 in Hnd. intros Hin. apply Hnd. apply in_or_app. now left.
    + now apply local_not_server.
Qed.

(** C6, as amended: which failures syncPendingTasks reports.  Online, the
    requests of a run are pushes (creates and updates) followed, if no push
    failed, by the one GET of phase 3.  The call throws exactly when a push
    fails, that is, when it is rejected, answered with a status outside
    200-299, or answered OK with a body that is not JSON or is [null]: the
    error thrown is the error of that push, which is the first push to fail
    and the last request issued.  The error is computed from the answer
    alone ([answer_failure]), the same for a create and an update: it
    carries no phase.  Once the GET has been issued the call returns the
    change count, whatever the answer to the GET was: a failure of the pull
    is caught and not reported. *)
Theorem sync_error_report (a : App W) :
  onLine (world a) = true ->
  exists evs,
    calls (fst (syncPendingTasks a)) = calls a ++ evs /\
    reported evs (snd (syncPendingTasks a)) /\
    (forall r, In (CallList r) evs ->
               exists n, snd (syncPendingTasks a) = Returned n).
Proof.
  intros Hon. destruct (sync_trace a Hon) as [evs [Hc Hr]].
  exists evs. split; [exact Hc|]. split; [exact Hr|].
  intros r Hin. destruct (snd (syncPendingTasks a)) as [n|e]; [now exists n|].
  destruct Hr as [pre [c [-> [Hpre [Hpush _]]]]]. exfalso.
  apply in_app_or in Hin as [Hin|[Heq|[]]].
  - rewrite Forall_forall in Hpre. now destruct (Hpre _ Hin).
  - rewrite Heq in Hpush. exact Hpush.
Qed.

(** No DELETE request is ever issued by syncPendingTasks: the lists it
    iterates over come from [getAllTasksLocal], which leaves out the
    records marked deleted. *)
Lemma sync_never_deletes (a : App W) :
  exists evs,
    calls (fst (syncPendingTasks a)) = calls a ++ evs /\
    forall cid sid r, ~ In (CallDelete cid sid r) evs.
Proof.
  destruct (onLine (world a)) eqn:Hon.
  - destruct (sync_trace a Hon) as [evs [Hc Hr]]. exists evs. split; [exact Hc|].
    intros cid sid r Hin. destruct (snd (syncPendingTasks a)) as [n|e].
    + destruct Hr as [pre [r0 [-> Hpre]]].
      apply in_app_or in Hin as [Hin|[Heq|[]]]; [|discriminate].
      rewrite Forall_forall in Hpre. now destruct (Hpre _ Hin).
    + destruct Hr as [pre [c [-> [Hpre [Hpush _]]]]].
      apply in_app_or in Hin as [Hin|[Heq|[]]];
        [|rewrite Heq in Hpush; exact Hpush].
      rewrite Forall_forall in Hpre. now destruct (Hpre _ Hin).
  - rewrite sync_offline by exact Hon. exists []. simpl. rewrite app_nil_r.
    split; [reflexivity|]. intros cid sid r [].
Qed.

(** C7, as amended: an update whose target is missing on the server is a
    failure like any other.  When phase 1 has returned and the loop of
    phase 2 reaches the dirty task [T] and its PUT is answered 404,
    syncPendingTasks throws the error of status 404, and the record of
    [T] stays in the store as it was, dirty. *)
Theorem update_not_found_aborts
    (a a1 a2 : App W) (l1 l2 : list Task) (T : Task) (n1 n2 : nat)
    (w : W) (body : Json UpdateData) :
  store_ok (db a) ->
  onLine (world a) = true ->
  phase1 a = (a1, Returned n1) ->
  filter is_server (visible (db a1)) = l1 ++ T :: l2 ->
  for_of l1 push_change n1 a1 = (a2, Returned n2) ->
  dirty T = true ->
  fetch_put (world a2) (serverId_of (clientId T)) (body_of T)
  = (w, Response 404 body) ->
  let failed := CallUpdate (clientId T) (serverId_of (clientId T)) (body_of T)
                           (Response 404 body) in
  syncPendingTasks a = (called w failed a2, Thrown (Http 404)) /\
  store_get (clientId T) (db (fst (syncPendingTasks a))) = Some T /\
  deleted T = false.
Proof.
  intros Hok Hon H1 Hl H2 Hd Hf failed. rewrite phase1_eq in H1.
  pose proof (server_tasks_live (db a1)) as Hlive. rewrite Hl in Hlive.
  apply Forall_app in Hlive as [_ Hlive].
  inversion Hlive as [|? ? [HTd HTs] _]; subst.
  assert (Hsync : syncPendingTasks a = (called w failed a2, Thrown (Http 404))).
  { rewrite sync_eq by exact Hon. rewrite H1. unfold after_phase1.
    rewrite Hl, for_of_app, H2. simpl. unfold bind.
    rewrite push_change_eq. simpl. rewrite HTd, Hd, Hf. reflexivity. }
  rewrite Hsync. simpl. split; [reflexivity|]. split; [|exact HTd].
  assert (Hok1 : store_ok (db a1)).
  { pose proof (creates_ok (filter is_local (visible (db a))) 0%nat a Hok) as Hc.
    now rewrite H1 in Hc. }
  pose proof (visible_keys_nodup is_server (db a1) Hok1) as Hnd. rewrite Hl in Hnd.
  rewrite map_app in Hnd. simpl in Hnd. apply NoDup_remove_2 in Hnd.
  pose proof (changes_frame l1 n1 a1 (clientId T)) as Hfr. rewrite H2 in Hfr.
  simpl in Hfr. rewrite Hfr.
  - apply store_get_in; [exact Hok1|].
    assert (HinT : In T (filter is_server (visible (db a1)))).
    { rewrite Hl. apply in_or_app. right. now left. }
    apply filter_In in HinT as [HinT _]. now apply visible_in in HinT.
  - intros Hin. apply Hnd. apply in_or_app. now left.
Qed.

(** C8: no listing shows a record marked deleted.  [getAllTasksLocal]
    resolves to exactly the records of the store whose [deleted] is not
    set, and [renderTasks] builds its elements, and its count, from that
    list alone. *)
Theorem listing_hides_tombstones (a : App W) :
  (exists tasks,
      getAllTasksLocal a = (a, Returned tasks) /\
      Forall (fun t => deleted t = false) tasks /\
      (forall t, In t tasks <-> In t (db a) /\ deleted t = false)) /\
  Forall (fun el => deleted (el_task el) = false /\ In (el_task el) (db a))
         (tasksList (fst (renderTasks a))) /\
  (forall t, In t (db a) -> deleted t = true ->
             ~ In t (map el_task (tasksList (fst (renderTasks a))))) /\
  taskCount (fst (renderTasks a))
  = List.length (filter (fun t => negb (deleted t)) (db a)).
Proof.
  split; [|split; [|split]].
  - exists (visible (db a)). split; [reflexivity|]. split.
    + apply Forall_forall. intros t Ht. now apply visible_in in Ht.
    + intros t. apply visible_in.
  - simpl. apply Forall_forall. intros el Hel.
    apply in_map_iff in Hel as [t [<- Ht]]. simpl.
    apply visible_in in Ht. tauto.
  - simpl. intros t Hin Hd Hel. rewrite map_map in Hel. simpl in Hel.
    rewrite map_id in Hel. apply visible_in in Hel. destruct Hel. congruence.
  - simpl. unfold visible, store_getAll.
    apply Permutation_length. apply visible_sort_perm.
Qed.

End WithEnv.

End SyncFacts.

(** ** The page against server.js: concrete runs *)
Module Scenarios.
Import Client SyncSpec Samples.

(** PUT /api/tasks/:id answers 404 when no task has the id, and changes
    nothing. *)
Lemma put_missing_is_404 (now : Z) (s : Server.State) (param : option Z)
    (b : Server.Body) :
  Server.find_task param (Server.TASKS s) = None ->
  Server.put_api_tasks now s param b = (s, Server.Failed 404 "Tarea no encontrada").
Proof. intros Hf. unfold Server.put_api_tasks. now rewrite Hf. Qed.

(** DELETE /api/tasks/:id answers 200 whether or not a task had the id. *)
Lemma delete_is_200 (s : Server.State) (param : option Z) :
  Server.status_of (snd (Server.delete_api_task s param)) = 200.
Proof. reflexivity. Qed.

(** Scenario of the specification: one task created offline, the server
    assigns the next id, the record is remapped and the count is 1. *)
Example scenario_create :
  let r := syncPendingTasks (Wire.page net0 [milk]) in
  snd r = Returned 1%nat /\
  map (fun t => (clientId t, title t, dirty t)) (db (fst r))
  = [("server_1", "Comprar leche", false);
     ("server_2", "Enviar reporte", false);
     ("server_3", "Buy milk", false)].
Proof. vm_compute. split; reflexivity. Qed.

(** Scenario of the specification: a clean record takes the title the
    server has. *)
Example scenario_pull :
  let r := syncPendingTasks renamed_two in
  snd r = Returned 0%nat /\
  option_map (fun t => (title t, dirty t)) (store_get "server_2" (db (fst r)))
  = Some ("Enviar reporte final", false).
Proof. vm_compute. split; reflexivity. Qed.

(** C1 as stated fails: on a page whose records are all consistent the
    call still issues a request, the GET of phase 3. *)
Lemma consistent_sync_still_fetches :
  Forall consistent (db synced) /\
  onLine (world synced) = true /\
  ~ (calls (fst (syncPendingTasks (Wire.page (world synced) (db synced)))) = []
     /\ snd (syncPendingTasks (Wire.page (world synced) (db synced)))
        = Returned 0%nat).
Proof.
  split; [|split].
  - repeat constructor.
  - reflexivity.
  - intros [Hcalls _]. vm_compute in Hcalls. discriminate.
Qed.

(** The synced page is consistent: one GET, count 0. *)
Lemma sync_consistent_pulls_only_witness :
  snd (syncPendingTasks synced) = Returned 0%nat /\
  calls (fst (syncPendingTasks synced))
  = calls synced ++ [CallList (snd (fetch_get (world synced)))].
Proof.
  apply (SyncFacts.sync_consistent_pulls_only synced).
  - reflexivity.
  - repeat constructor.
Defined.

(** [milk] alone in the store, created as task 3 on the server. *)
Lemma create_remaps_witness :
  let a := Wire.page net0 [milk] in
  let final := db (fst (syncPendingTasks a)) in
  store_get "local_b" final = None /\
  exists t, store_get "server_3" final = Some t /\
            clientId t = "server_3" /\ dirty t = false.
Proof.
  intros a final.
  destruct (SyncFacts.create_remaps a a [] [] milk 0
              (fst (fetch_post net0 (body_of milk))) 201
              (mkCreateData true (Some milk_on_server)) milk_on_server)
    as [_ [_ [_ [Hgone Hkept]]]]; try reflexivity.
  split; [exact Hgone|exact Hkept].
Defined.


(** The create of [eggs] goes through, the create of [milk] is lost: the
    call throws, [milk] is untouched and no create is issued for [bread]. *)
Lemma create_failure_aborts_witness :
  let a := Wire.page net_drop2 shopping in
  snd (syncPendingTasks a) = Thrown (Network "Failed to fetch") /\
  store_get "local_b" (db (fst (syncPendingTasks a))) = Some milk.
Proof.
  intros a.
  destruct (SyncFacts.create_failure_aborts a
              (fst (for_of [eggs] push_create 0%nat a)) [eggs] [bread] milk 1
              (fst (fetch_post (world (fst (for_of [eggs] push_create 0%nat a)))
                               (body_of milk)))
              (Rejected "Failed to fetch") (Network "Failed to fetch"))
    as [Hsync [_ [Hkept _]]]; try reflexivity.
  - repeat constructor; simpl; intuition discriminate.
  - split; [now rewrite Hsync|exact Hkept].
Defined.

(** C6 as stated fails, twice.  The GET of phase 3 is lost and the call
    returns as if nothing had happened.  And the value thrown does not tell
    the phase: a create lost in phase 1 and an update lost in phase 2 make
    the call throw the same value. *)
Lemma pull_failure_is_swallowed :
  (snd (fetch_get (world (Wire.page net_down []))) = Rejected "Failed to fetch" /\
   ~ (exists e, snd (syncPendingTasks (Wire.page net_down [])) = Thrown e)) /\
  (calls (fst (syncPendingTasks (Wire.page net_down [milk])))
   = [CallCreate "local_b" (body_of milk) (Rejected "Failed to fetch")] /\
   calls (fst (syncPendingTasks (Wire.page net_down [ghost])))
   = [CallUpdate "server_99" (Some 99) (body_of ghost)
                 (Rejected "Failed to fetch")] /\
   snd (syncPendingTasks (Wire.page net_down [milk]))
   = Thrown (Network "Failed to fetch") /\
   snd (syncPendingTasks (Wire.page net_down [ghost]))
   = Thrown (Network "Failed to fetch")).
Proof.
  split; [split|].
  - reflexivity.
  - intros [e He]. vm_compute in He. discriminate.
  - vm_compute. repeat split.
Qed.

(** An OK answer that is not JSON fails the push that got it: behind the
    proxy the create of [milk] throws the rejection of [response.json()],
    and so does the update of [ghost]; with nothing to push the same
    answer to the GET is swallowed. *)
Example unreadable_answer_is_thrown :
  syncPendingTasks (H := portal) (portal_page [milk])
  = (mkApp tt [milk]
           [CallCreate "local_b" (body_of milk)
                       (Response 200 (NotJson "Unexpected token <"))] [] 0,
     Thrown (Syntax "Unexpected token <")) /\
  snd (syncPendingTasks (H := portal) (portal_page [ghost]))
  = Thrown (Syntax "Unexpected token <") /\
  snd (syncPendingTasks (H := portal) (portal_page [])) = Returned 0%nat.
Proof. repeat split. Qed.

(** The same run, seen through its requests. *)
Lemma sync_error_report_witness :
  exists evs,
    calls (fst (syncPendingTasks (Wire.page net_drop2 shopping))) = [] ++ evs /\
    reported evs (snd (syncPendingTasks (Wire.page net_drop2 shopping))) /\
    (forall r, In (CallList r) evs ->
               exists n, snd (syncPendingTasks (Wire.page net_drop2 shopping))
                         = Returned n).
Proof.
  apply (SyncFacts.sync_error_report (Wire.page net_drop2 shopping)).
  reflexivity.
Defined.

(** C7 as stated fails: the PUT for a task that the server does not have
    is answered 404; the call throws and the record is still there. *)
Lemma update_not_found_is_an_error :
  Server.find_task (Some 99) (Server.TASKS (Wire.server net0)) = None /\
  ~ (store_get "server_99" (db (fst (syncPendingTasks (Wire.page net0 [ghost]))))
     = None
     /\ exists n, snd (syncPendingTasks (Wire.page net0 [ghost])) = Returned n).
Proof.
  split; [reflexivity|]. intros [Hgone _]. vm_compute in Hgone. discriminate.
Qed.

(** The PUT for [ghost] is answered 404. *)
Lemma update_not_found_aborts_witness :
  let a := Wire.page net0 [ghost] in
  snd (syncPendingTasks a) = Thrown (Http 404) /\
  store_get "server_99" (db (fst (syncPendingTasks a))) = Some ghost.
Proof.
  intros a.
  destruct (SyncFacts.update_not_found_aborts a a a [] [] ghost 0 0
              (fst (fetch_put net0 (Some 99) (body_of ghost)))
              (JsonData (mkUpdateData false)))
    as [Hsync [Hkept _]]; try reflexivity.
  - repeat constructor; simpl; intuition discriminate.
  - split; [now rewrite Hsync|exact Hkept].
Defined.

(** C5, the failing run: the user deletes task 1 on a synced page and the
    page synchronises.  No DELETE request is issued; the server still has
    task 1; the tombstone stays in the store, dirty, and stays there on the
    next run as well, while [hasPendingSync] reports nothing pending. *)
Theorem tombstone_is_never_pushed :
  store_get "server_1" (db deleted_one) = Some tombstone /\
  let r := syncPendingTasks deleted_one in
  snd r = Returned 0%nat /\
  existsb is_delete (calls (fst r)) = false /\
  store_get "server_1" (db (fst r)) = Some tombstone /\
  Server.find_task (Some 1) (Server.TASKS (Wire.server (world (fst r)))) <> None /\
  store_get "server_1" (db (fst (syncPendingTasks (fst r)))) = Some tombstone /\
  snd (hasPendingSync (fst r)) = Returned false.
Proof.
  vm_compute. repeat split; try reflexivity. discriminate.
Qed.

(** C10 as stated fails: a PUT whose description is [null] assigns the
    title, throws at [description.trim()] and is answered 500; updatedAt is
    not set. *)
Lemma put_null_description_skips_updatedAt :
  let body := Server.mkBody (Some (Js.JStr "New")) (Some Js.JNull)
                            None None None in
  let r := Server.put_api_tasks (start + 5) (Server.init start) (Some 1) body in
  snd r = Server.Failed 500 "Error interno del servidor" /\
  exists task',
    Server.find_task (Some 1) (Server.TASKS (fst r)) = Some task' /\
    Server.title task' = "New" /\
    Server.updatedAt task' = start - 3600000 /\
    Server.updatedAt task' <> start + 5.
Proof.
  simpl. split; [reflexivity|]. eexists. split; [reflexivity|].
  split; [reflexivity|]. split; [reflexivity|]. discriminate.
Qed.

(** A PUT to task 2 at start-up, with only [completed] in its body. *)
Lemma put_partial_update_witness :
  exists task',
    Server.put_api_tasks (start + 5) (Server.init start) (Some 2)
      (Server.mkBody None None (Some (Js.JBool true)) None None)
    = ({| Server.TASKS := [first_on_server; task']; Server.NEXT_ID := 3 |},
       Server.Updated task') /\
    Server.id task' = 2 /\
    Server.completed task' = true /\ Server.title task' = "Enviar reporte" /\
    Server.updatedAt task' = start + 5 /\
    Server.createdAt task' = start - 7200000.
Proof.
  destruct (ServerFacts.put_partial_update (start + 5) (Server.init start) 2
              (Server.mkBody None None (Some (Js.JBool true)) None None)
              [first_on_server] []
              (Server.mkTask 2 "Enviar reporte" "Reporte semanal al equipo" false
                             Js.JNull Js.JNull (start - 7200000) (start - 7200000))
              eq_refl)
    as (task' & Hfst & Hid & Hc & Ht & _ & _ & _ & _ & Hrest).
  - repeat constructor. discriminate.
  - reflexivity.
  - cbn [ServerSpec.texts_ok ServerSpec.text_ok Server.b_title
         Server.b_description andb] in Hrest.
    destruct Hrest as (Hsnd & Hu & _ & _ & Hcomp & _).
    exists task'. split.
    + rewrite (surjective_pairing (Server.put_api_tasks _ _ _ _)).
      rewrite Hfst, Hsnd. reflexivity.
    + split; [exact Hid|]. split; [exact (Hcomp _ eq_refl)|].
      split; [exact (Ht eq_refl)|]. split; [exact Hu|exact Hc].
Defined.

End Scenarios.

(** ** JavaScript built-ins: trimming *)
Module JsFacts.
Import Js JsSpec.

Lemma trimStart_step (s : string) :
  trimStart s = match space_len s with
                | O => s
                | S k => trimStart (skip (S k) s)
                end.
Proof.
  destruct s as [|a [|b [|c r]]]; try reflexivity; unfold space_len;
    cbn [trimStart skip].
  - now destruct (is_space a).
  - destruct (is_space a); [reflexivity|]. now destruct (is_space2 a b).
  - destruct (is_space a); [reflexivity|].
    destruct (is_space2 a b); [reflexivity|]. now destruct (is_space3 a b c).
Qed.

Lemma skip_shorter (s : string) :
  space_len s <> 0%nat ->
  (String.length (skip (space_len s) s) < String.length s)%nat.
Proof.
  destruct s as [|a [|b [|c r]]]; unfold space_len.
  - intros Hn. now elim Hn.
  - destruct (is_space a); simpl; intros Hn; [lia|now elim Hn].
  - destruct (is_space a); simpl; [lia|].
    destruct (is_space2 a b); simpl; intros Hn; [lia|now elim Hn].
  - destruct (is_space a); simpl; [lia|].
    destruct (is_space2 a b); simpl; [lia|].
    destruct (is_space3 a b c); simpl; intros Hn; [lia|now elim Hn].
Qed.

Lemma space_ind (P : string -> Prop) :
  (forall s, space_len s = 0%nat -> P s) ->
  (forall s, space_len s <> 0%nat -> P (skip (space_len s) s) -> P s) ->
  forall s, P s.
Proof.
  intros H0 HS s.
  remember (String.length s) as n eqn:Hn. revert s Hn.
  induction n as [n IH] using lt_wf_ind. intros s Hn.
  destruct (Nat.eq_dec (space_len s) 0) as [Hz|Hnz]; [now apply H0|].
  apply HS; [exact Hnz|].
  apply (IH (String.length (skip (space_len s) s))); [|reflexivity].
  subst n. now apply skip_shorter.
Qed.

Lemma trimStart_kept (s : string) : space_len s = 0%nat -> trimStart s = s.
Proof. intros Hz. rewrite trimStart_step. now rewrite Hz. Qed.

Lemma trimStart_skip (s : string) :
  space_len s <> 0%nat -> trimStart s = trimStart (skip (space_len s) s).
Proof.
  intros Hnz. rewrite trimStart_step. destruct (space_len s); [now elim Hnz|reflexivity].
Qed.

Lemma trimStart_head (s : string) : space_len (trimStart s) = 0%nat.
Proof.
  induction s as [s Hz|s Hnz IH] using space_ind.
  - now rewrite trimStart_kept.
  - now rewrite trimStart_skip.
Qed.

Lemma space_len_app (s w : string) :
  space_len s <> 0%nat ->
  space_len (s ++ w) = space_len s /\
  skip (space_len s) (s ++ w) = (skip (space_len s) s ++ w)%string.
Proof.
  destruct s as [|a [|b [|c r]]]; unfold space_len; cbn [String.append].
  - intros Hn. now elim Hn.
  - destruct (is_space a); [auto|]. intros Hn. now elim Hn.
  - destruct (is_space a); [auto|].
    destruct (is_space2 a b); [auto|]. intros Hn. now elim Hn.
  - destruct (is_space a); [auto|].
    destruct (is_space2 a b); [auto|].
    destruct (is_space3 a b c); [auto|]. intros Hn. now elim Hn.
Qed.

Lemma all_space_app (u w : string) :
  trimStart u = EmptyString -> trimStart (u ++ w) = trimStart w.
Proof.
  induction u as [u Hz|u Hnz IH] using space_ind; intros Hu.
  - rewrite trimStart_kept in Hu by exact Hz. now subst u.
  - rewrite trimStart_skip in Hu by exact Hnz.
    destruct (space_len_app u w Hnz) as [Hlen Hskip].
    rewrite (trimStart_skip (u ++ w)) by (now rewrite Hlen).
    rewrite Hlen, Hskip. now apply IH.
Qed.

Lemma trimEnd_split (s : string) :
  exists w, s = (trimEnd s ++ w)%string /\ trimStart w = EmptyString.
Proof.
  induction s as [|a r [w [Hr Hw]]]; [now exists EmptyString|].
  cbn [trimEnd]. destruct (trimStart (String a r)) as [|x t] eqn:E.
  - now exists (String a r).
  - exists w. cbn [String.append]. now rewrite <- Hr.
Qed.

Lemma trimEnd_idem (s : string) : trimEnd (trimEnd s) = trimEnd s.
Proof.
  induction s as [|a r IH]; [reflexivity|].
  cbn [trimEnd]. destruct (trimStart (String a r)) as [|x t] eqn:E; [reflexivity|].
  cbn [trimEnd]. destruct (trimStart (String a (trimEnd r))) as [|y t'] eqn:E2.
  - exfalso. destruct (trimEnd_split r) as [w [Hr Hw]].
    pose proof (all_space_app (String a (trimEnd r)) w E2) as Happ.
    cbn [String.append] in Happ. rewrite <- Hr, Hw in Happ. congruence.
  - now rewrite IH.
Qed.

Lemma trimEnd_head (s : string) :
  space_len s = 0%nat -> space_len (trimEnd s) = 0%nat.
Proof.
  intros Hz. destruct (trimEnd_split s) as [w [Hs _]].
  destruct (Nat.eq_dec (space_len (trimEnd s)) 0) as [H0|Hn]; [exact H0|].
  destruct (space_len_app (trimEnd s) w Hn) as [Hlen _].
  rewrite <- Hs in Hlen. congruence.
Qed.

Lemma trim_idem (s : string) : trim (trim s) = trim s.
Proof.
  unfold trim.
  rewrite (trimStart_kept (trimEnd (trimStart s))).
  - apply trimEnd_idem.
  - apply trimEnd_head, trimStart_head.
Qed.

Lemma falsy_is_empty (s : string) : truthy_string s = false -> s = EmptyString.
Proof.
  unfold truthy_string. destruct (String.eqb_spec s ""); [auto|discriminate].
Qed.


(** The no-break space and the other white space beyond ASCII are
    trimmed: a title made of them alone is empty once trimmed. *)
Example trim_unicode :
  trim (String (ascii_of_nat 194) (String (ascii_of_nat 160) "")) = "" /\
  trim (String (ascii_of_nat 226) (String (ascii_of_nat 128)
          (String (ascii_of_nat 168) " a b "))) = "a b" /\
  trim (String (ascii_of_nat 239) (String (ascii_of_nat 187)
          (String (ascii_of_nat 191) "x"))
        ++ String (ascii_of_nat 227) (String (ascii_of_nat 128)
             (String (ascii_of_nat 128) ""))) = "x".
Proof. repeat split. Qed.

End JsFacts.

(** ** server.js: the task routes one by one *)
Module ServerRoutes.
Import Server ServerSpec RouteSpec.

(** X1: what POST /api/tasks makes of its body.  Without a title, with
    a falsy one or with a string that is empty once trimmed (the white space
    beyond ASCII included) the answer is 400 and nothing changes.  A title
    that is truthy and not a string makes the handler throw: 500, nothing
    changes.  With a usable title and a description that is truthy and not
    a string the handler throws after [NEXT_ID++]: 500, no task, the counter
    moved.  Otherwise one task is appended, with the id [NEXT_ID], the time
    of the request in both timestamps, the trimmed description and the
    trimmed title, which is not empty and has no white space left to trim,
    and the counter moves by one. *)
Theorem post_needs_a_title (now : Z) (s : State) (b : Body) :
  match b_title b with
  | None => post_api_tasks now s b = (s, Failed 400 "El título es requerido")
  | Some (Js.JStr t) =>
      if String.eqb (Js.trim t) ""
      then post_api_tasks now s b = (s, Failed 400 "El título es requerido")
      else if bad_description (b_description b)
      then post_api_tasks now s b
           = ({| TASKS := TASKS s; NEXT_ID := NEXT_ID s + 1 |},
              Failed 500 "Error interno del servidor")
      else exists task,
          post_api_tasks now s b
          = ({| TASKS := TASKS s ++ [task]; NEXT_ID := NEXT_ID s + 1 |},
             Created task) /\
          id task = NEXT_ID s /\
          title task = Js.trim t /\
          title task <> "" /\
          Js.trim (title task) = title task /\
          description task = match b_description b with
                             | Some (Js.JStr d) => Js.trim d
                             | _ => ""
                             end /\
          createdAt task = now /\ updatedAt task = now
  | Some v =>
      if Js.truthy v
      then post_api_tasks now s b = (s, Failed 500 "Error interno del servidor")
      else post_api_tasks now s b = (s, Failed 400 "El título es requerido")
  end.
Proof.
  unfold post_api_tasks.
  destruct (b_title b) as [[|c|n|t|o]|]; try reflexivity;
    cbn [Js.truthy Js.trim_of negb].
  - now destruct c.
  - now destruct (negb (n =? 0)).
  - destruct (String.eqb_spec (Js.trim t) "") as [He|Hne].
    + now destruct (negb (Js.truthy_string t)).
    + destruct (Js.truthy_string t) eqn:Ht.
      2:{ exfalso. apply Hne. apply JsFacts.falsy_is_empty in Ht. now subst t. }
      cbn [negb]. unfold description_of, bad_description.
      destruct (b_description b) as [[|c|n|d|o]|]; cbn [Js.truthy Js.trim_of];
        try (eexists; split; [reflexivity|]; cbn [id title description createdAt
               updatedAt]; repeat split; auto using JsFacts.trim_idem; fail).
      * destruct c; [reflexivity|].
        eexists; split; [reflexivity|]; cbn [id title description createdAt
           updatedAt]; repeat split; auto using JsFacts.trim_idem.
      * destruct (negb (n =? 0)); [reflexivity|].
        eexists; split; [reflexivity|]; cbn [id title description createdAt
           updatedAt]; repeat split; auto using JsFacts.trim_idem.
      * destruct (Js.truthy_string d) eqn:Hd;
          (eexists; split; [reflexivity|]; cbn [id title description createdAt
             updatedAt]; repeat split; auto using JsFacts.trim_idem).
        apply JsFacts.falsy_is_empty in Hd. now subst d.
      * reflexivity.
Qed.

(** A title that is a no-break space is refused; a description that is a
    number costs an id: the next task created is task 4. *)
Example post_edge_cases :
  let nbsp := String (ascii_of_nat 194) (String (ascii_of_nat 160) "") in
  let pan := Some (Js.JStr "Pan") in
  post_api_tasks 1 (init 0) (mkBody (Some (Js.JStr nbsp)) None None None None)
  = (init 0, Failed 400 "El título es requerido") /\
  post_api_tasks 1 (init 0) (mkBody pan (Some (Js.JNum 7)) None None None)
  = ({| TASKS := TASKS (init 0); NEXT_ID := 4 |},
     Failed 500 "Error interno del servidor") /\
  snd (post_api_tasks 2
         (fst (post_api_tasks 1 (init 0)
                 (mkBody pan (Some (Js.JNum 7)) None None None)))
         (mkBody pan None None None None))
  = Created (mkTask 4 "Pan" "" false Js.JNull Js.JNull 2 2).
Proof. repeat split. Qed.

Lemma filter_shorter (i : Z) (l : list Task) :
  Nat.ltb (List.length (filter (fun t => negb (id t =? i)) l)) (List.length l)
  = match find (fun t => id t =? i) l with Some _ => true | None => false end.
Proof.
  induction l as [|t r IH]; simpl; [reflexivity|].
  destruct (id t =? i); simpl.
  - apply Nat.ltb_lt. pose proof (filter_length_le (fun t => negb (id t =? i)) r). lia.
  - exact IH.
Qed.

Lemma find_after_filter (i j : Z) (l : list Task) :
  find (fun t => id t =? j) (filter (fun t => negb (id t =? i)) l)
  = if j =? i then None else find (fun t => id t =? j) l.
Proof.
  induction l as [|t r IH]; simpl; [now destruct (j =? i)|].
  destruct (id t =? i) eqn:Hi; simpl.
  - rewrite IH. destruct (j =? i) eqn:Hj; [reflexivity|].
    destruct (id t =? j) eqn:Htj; [lia|reflexivity].
  - rewrite IH. destruct (id t =? j) eqn:Htj; [|reflexivity].
    destruct (j =? i) eqn:Hj; [lia|reflexivity].
Qed.

Lemma filter_twice {A} (p : A -> bool) (l : list A) :
  filter p (filter p l) = filter p l.
Proof.
  induction l as [|x r IH]; simpl; [reflexivity|].
  destruct (p x) eqn:Hp; simpl; [now rewrite Hp, IH|exact IH].
Qed.

(** X2: DELETE /api/tasks/:id removes the tasks with that id and nothing
    else.  The reply says [deleted: true] exactly when a task had the id;
    afterwards the id is not found, every other id finds what it found
    before, and the counter is unchanged, so the id is not handed out
    again; a second DELETE of the id, or a DELETE with a parameter that is
    not a number, changes nothing and says [deleted: false]. *)
Theorem delete_removes_by_id (s : State) (i : Z) :
  let s' := fst (delete_api_task s (Some i)) in
  snd (delete_api_task s (Some i))
  = Deleted (match find_task (Some i) (TASKS s) with
             | Some _ => true | None => false end) /\
  find_task (Some i) (TASKS s') = None /\
  (forall j, j <> i ->
             find_task (Some j) (TASKS s') = find_task (Some j) (TASKS s)) /\
  NEXT_ID s' = NEXT_ID s /\
  delete_api_task s' (Some i) = (s', Deleted false) /\
  delete_api_task s None = (s, Deleted false).
Proof.
  unfold delete_api_task. simpl. repeat split.
  - now rewrite filter_shorter.
  - rewrite find_after_filter. now rewrite Z.eqb_refl.
  - intros j Hj. rewrite find_after_filter. destruct (j =? i) eqn:E; [lia|reflexivity].
  - rewrite filter_twice. now rewrite Nat.ltb_irrefl.
  - rewrite Nat.ltb_irrefl. now destruct s.
Qed.

Lemma insert_newest_sorted (t : Task) (l : list Task) :
  newest_first l -> newest_first (insert_newest t l).
Proof.
  unfold newest_first. induction 1 as [|u r Hr IH Hu]; simpl.
  - repeat constructor.
  - destruct (createdAt u <=? createdAt t) eqn:E.
    + constructor; [constructor; auto|]. constructor; [lia|].
      eapply Forall_impl; [|exact Hu]. simpl. intros; lia.
    + constructor; [exact IH|].
      eapply Permutation_Forall.
      * symmetry. apply ServerFacts.insert_newest_perm.
      * constructor; [lia|exact Hu].
Qed.

Lemma sort_newest_sorted (l : list Task) : newest_first (sort_newest l).
Proof.
  induction l as [|t r IH]; simpl; [constructor|]. now apply insert_newest_sorted.
Qed.

Lemma sort_newest_fixed (l : list Task) : newest_first l -> sort_newest l = l.
Proof.
  unfold newest_first. induction 1 as [|t r Hr IH Ht]; simpl; [reflexivity|].
  rewrite IH. destruct r as [|u r']; simpl; [reflexivity|].
  inversion Ht; subst. destruct (createdAt u <=? createdAt t) eqn:E; [reflexivity|lia].
Qed.

(** X3: GET /api/tasks sends all the tasks, newest first, with their
    number, and leaves the store in that order: the list sent is a
    rearrangement of [TASKS], no task in it is newer than one before it,
    [TASKS] is that list afterwards, and a GET repeated at any later time
    sends the same list. *)
Theorem get_tasks_newest_first (now later : Z) (s : State) :
  exists l,
    get_api_tasks now s
    = ({| TASKS := l; NEXT_ID := NEXT_ID s |}, Listed l (List.length (TASKS s)) now) /\
    Permutation l (TASKS s) /\
    newest_first l /\
    get_api_tasks later (fst (get_api_tasks now s))
    = (fst (get_api_tasks now s), Listed l (List.length (TASKS s)) later).
Proof.
  exists (sort_newest (TASKS s)). unfold get_api_tasks. simpl.
  pose proof (ServerFacts.sort_newest_perm (TASKS s)) as Hp.
  rewrite (Permutation_length Hp).
  split; [reflexivity|]. split; [exact Hp|]. split; [apply sort_newest_sorted|].
  rewrite (sort_newest_fixed _ (sort_newest_sorted (TASKS s))).
  now rewrite (Permutation_length Hp).
Qed.

Lemma find_appended (l : list Task) (t : Task) :
  Forall (fun u => id u < id t) l ->
  find (fun u => id u =? id t) (l ++ [t]) = Some t.
Proof.
  induction 1 as [|u r Hu Hr IH]; simpl.
  - now rewrite Z.eqb_refl.
  - destruct (id u =? id t) eqn:E; [lia|exact IH].
Qed.

End ServerRoutes.

(** ** server.js: POST /api/sync *)
Module ServerSync.
Import Server ServerSpec RouteSpec.

Lemma fresh_ids_cons (next : Z) (n : nat) :
  fresh_ids next (S n) = next :: fresh_ids (next + 1) n.
Proof.
  unfold fresh_ids. simpl. rewrite <- seq_shift, map_map. f_equal; [lia|].
  apply map_ext. intros k. lia.
Qed.

(** One element of the request. *)
Lemma sync_one_step (now : Z) (a : SyncAcc) (task : Incoming) :
  let a1 := sync_one now a task in
  (forall i, In i (map id (TASKS (acc_state a))) ->
             In i (map id (TASKS (acc_state a1)))) /\
  if creatable task then
    acc_created a1 = acc_created a ++ [NEXT_ID (acc_state a)] /\
    NEXT_ID (acc_state a1) = NEXT_ID (acc_state a) + 1 /\
    acc_mapping a1
    = acc_mapping a ++ [(local_id_of task, NEXT_ID (acc_state a))]
  else
    acc_created a1 = acc_created a /\
    NEXT_ID (acc_state a1) = NEXT_ID (acc_state a) /\
    acc_mapping a1 = acc_mapping a.
Proof.
  unfold sync_one. fold (creatable task).
  destruct (creatable task); simpl.
  - split; [|auto]. intros i Hi. rewrite map_app. apply in_or_app. now left.
  - destruct (truthy_id (in_id task)); [|auto].
    destruct (find_task (in_id task) (TASKS (acc_state a))); [|auto].
    simpl. split; [|auto]. intros i Hi. rewrite ServerFacts.mutate_ids; auto.
Qed.

(** What the [forEach] has accumulated after the elements [l]. *)
Lemma sync_fold_created (now : Z) (l : list Incoming) (a : SyncAcc) :
  let a' := fold_left (sync_one now) l a in
  let new := filter creatable l in
  let ids := fresh_ids (NEXT_ID (acc_state a)) (List.length new) in
  acc_created a' = acc_created a ++ ids /\
  NEXT_ID (acc_state a') = NEXT_ID (acc_state a) + Z.of_nat (List.length new) /\
  acc_mapping a' = acc_mapping a ++ combine (map local_id_of new) ids /\
  (forall i, In i (map id (TASKS (acc_state a))) ->
             In i (map id (TASKS (acc_state a')))).
Proof.
  revert a. induction l as [|task r IH]; intros a; simpl.
  - rewrite !app_nil_r. split; [reflexivity|]. split; [lia|]. split; auto.
  - destruct (IH (sync_one now a task)) as [Hc [Hn [Hm Hin]]].
    destruct (sync_one_step now a task) as [Hin1 Hstep].
    destruct (creatable task); cbn [List.length].
    + destruct Hstep as [Hc1 [Hn1 Hm1]].
      rewrite Hc, Hn, Hm, Hc1, Hn1, Hm1, !fresh_ids_cons, <- !app_assoc.
      cbn [map combine app].
      split; [reflexivity|]. split; [lia|]. split; [reflexivity|]. auto.
    + destruct Hstep as [Hc1 [Hn1 Hm1]].
      rewrite Hc, Hn, Hm, Hc1, Hn1, Hm1.
      split; [reflexivity|]. split; [reflexivity|]. split; [reflexivity|]. auto.
Qed.







End ServerSync.

(** ** server.js: a task over a session *)
Module ServerRuns.
Import Server ServerSpec RouteSpec.

Lemma filter_keeps_id (i j : Z) (l : list Task) :
  j <> i -> In i (map id l) ->
  In i (map id (filter (fun t => negb (id t =? j)) l)).
Proof.
  intros Hj Hin. apply in_map_iff in Hin as [t [Ht Hin]].
  apply in_map_iff. exists t. split; [exact Ht|].
  apply filter_In. split; [exact Hin|].
  destruct (id t =? j) eqn:E; [lia|reflexivity].
Qed.

(** A request other than a DELETE of the task leaves its id in the store. *)
Lemma handle_keeps (now : Z) (s : State) (r : Request) (i : Z) :
  keeps i r = true -> In i (map id (TASKS s)) ->
  In i (map id (TASKS (fst (handle now s r)))).
Proof.
  intros Hk Hin. destruct r as [| |b|param b|param| |l]; cbn [handle].
  - simpl. eapply Permutation_in; [|exact Hin].
    apply Permutation_map. symmetry. apply ServerFacts.sort_newest_perm.
  - simpl. eapply Permutation_in; [|exact Hin].
    apply Permutation_map. symmetry. apply ServerFacts.sort_newest_perm.
  - unfold post_api_tasks. destruct (b_title b) as [t|]; [|exact Hin].
    destruct (negb (Js.truthy t)); [exact Hin|].
    destruct (Js.trim_of t) as [trimmed|]; [|exact Hin].
    destruct (String.eqb trimmed ""); [exact Hin|].
    destruct (description_of (b_description b)); [|exact Hin].
    simpl. rewrite map_app. apply in_or_app. now left.
  - unfold put_api_tasks. destruct (find_task param (TASKS s)); [|exact Hin].
    simpl. rewrite ServerFacts.mutate_ids; [exact Hin|].
    intros u. apply ServerFacts.apply_body_id.
  - unfold delete_api_task. simpl. destruct param as [j|]; [|exact Hin].
    simpl in Hk. apply filter_keeps_id; [|exact Hin].
    destruct (j =? i) eqn:E; [discriminate|lia].
  - discriminate.
  - unfold post_api_sync. cbn [fst].
    now apply (ServerSync.sync_fold_created now
                 (match l with Some l0 => l0 | None => [] end)
                 (mkSyncAcc s [] [] [])).
Qed.

Lemma run_keeps (reqs : list (Z * Request)) (s : State) (i : Z) :
  Forall (fun r => keeps i (snd r) = true) reqs ->
  In i (map id (TASKS s)) -> In i (map id (TASKS (fst (run s reqs)))).
Proof.
  intros Hk. revert s. induction Hk as [|[now r] rest Hr Hrest IH]; intros s Hin;
    [exact Hin|].
  simpl. pose proof (handle_keeps now s r i Hr Hin) as H1.
  destruct (handle now s r) as [s1 reply]. simpl in H1.
  specialize (IH s1 H1). destruct (run s1 rest) as [s2 ids]. exact IH.
Qed.

Lemma find_present (i : Z) (l : list Task) :
  In i (map id l) ->
  exists found, find_task (Some i) l = Some found /\ id found = i.
Proof.
  intros Hin. apply in_map_iff in Hin as [t [Ht Hin]]. simpl.
  destruct (find (fun u => id u =? i) l) as [found|] eqn:Hf.
  - exists found. split; [reflexivity|]. now apply ServerFacts.find_id in Hf.
  - apply (find_none _ _ Hf) in Hin. lia.
Qed.

(** X4: a task that POST /api/tasks created can be addressed by the id in
    the reply until it is deleted.  In every state reached from start-up,
    when the POST answers with a task, its id is the counter, looking the
    id up finds exactly that task, and after any further requests among
    which there is no DELETE of that id and no DELETE of all tasks, a task
    with that id is still found and a PUT to the id is not answered 404:
    it answers with the updated task of that id when the title and the
    description of its body, if present, are strings.  A POST that creates
    no task leaves [TASKS] as it was. *)
Theorem created_task_is_found
    (t0 : Z) (reqs later : list (Z * Request)) (now at_put : Z) (b b' : Body) :
  Forall (fun r => keeps (NEXT_ID (fst (run (init t0) reqs))) (snd r) = true)
         later ->
  let s := fst (run (init t0) reqs) in
  match post_api_tasks now s b with
  | (s', Created task) =>
      id task = NEXT_ID s /\
      find_task (Some (id task)) (TASKS s') = Some task /\
      let s'' := fst (run s' later) in
      let reply := snd (put_api_tasks at_put s'' (Some (id task)) b') in
      (exists found, find_task (Some (id task)) (TASKS s'') = Some found /\
                     id found = id task) /\
      status_of reply <> 404 /\
      (texts_ok b' = true ->
       exists task', reply = Updated task' /\ id task' = id task)
  | (s', _) => TASKS s' = TASKS s
  end.
Proof.
  intros Hlater s. fold s in Hlater.
  destruct (ServerFacts.run_fresh reqs (init t0) (ServerFacts.inv_init t0))
    as [[_ Hlt] _]. fold s in Hlt.
  unfold post_api_tasks. destruct (b_title b) as [t|]; [|reflexivity].
  destruct (negb (Js.truthy t)); [reflexivity|].
  destruct (Js.trim_of t) as [trimmed|]; [|reflexivity].
  destruct (String.eqb trimmed ""); [reflexivity|].
  destruct (description_of (b_description b)) as [text|]; [|reflexivity].
  match goal with |- context [TASKS s ++ [?x]] => set (task := x) end.
  set (s' := {| TASKS := TASKS s ++ [task]; NEXT_ID := NEXT_ID s + 1 |}).
  assert (Hfind : find_task (Some (id task)) (TASKS s') = Some task).
  { unfold find_task. apply ServerRoutes.find_appended. exact Hlt. }
  split; [reflexivity|]. split; [exact Hfind|].
  assert (Hin : In (id task) (map id (TASKS (fst (run s' later))))).
  { apply run_keeps; [exact Hlater|]. simpl. rewrite map_app.
    apply in_or_app. right. now left. }
  destruct (find_present _ _ Hin) as [found [Hfound Hid]].
  cbv zeta. split; [now exists found|].
  unfold put_api_tasks. rewrite Hfound. cbn [snd]. split.
  - now destruct (snd (apply_body at_put b' found)).
  - intros Htexts. exists (fst (apply_body at_put b' found)).
    split; [|now rewrite ServerFacts.apply_body_id].
    unfold texts_ok, text_ok in Htexts. unfold apply_body, assign_text, Js.trim_of.
    destruct (b_title b') as [[| | |x|]|]; try discriminate;
      destruct (b_description b') as [[| | |y|]|]; try discriminate; reflexivity.
Qed.

(** A task created at start-up, then a GET, the DELETE of task 1 and
    another POST, then a PUT to the task. *)
Lemma created_task_is_found_witness :
  let body := mkBody (Some (Js.JStr " Pan ")) None None None None in
  let s' := fst (post_api_tasks 1 (init 0) body) in
  let s'' := fst (run s' [(2, GetTasks); (3, DeleteTask (Some 1));
                          (4, PostTask body)]) in
  snd (post_api_tasks 1 (init 0) body)
  = Created (mkTask 3 "Pan" "" false Js.JNull Js.JNull 1 1) /\
  status_of (snd (put_api_tasks 5 s'' (Some 3)
                    (mkBody None None (Some (Js.JBool true)) None None)))
  <> 404.
Proof.
  pose proof (created_task_is_found 0 []
                [(2, GetTasks); (3, DeleteTask (Some 1));
                 (4, PostTask (mkBody (Some (Js.JStr " Pan ")) None None None None))]
                1 5
                (mkBody (Some (Js.JStr " Pan ")) None None None None)
                (mkBody None None (Some (Js.JBool true)) None None)) as Hx.
  vm_compute in Hx. vm_compute.
  split; [reflexivity|].
  apply Hx. repeat constructor.
Defined.

End ServerRuns.

(** ** server.js: push subscriptions *)
Module PushFacts.
Import Push.







Lemma send_one_step (send : Subscription -> Payload -> SendResult) (p : Payload)
    (acc : Sending) (x : string * Subscription) :
  map fst (results (send_one send p acc x)) = map fst (results acc) ++ [fst x] /\
  failed (send_one send p acc x)
  = failed acc ++ (match send (snd x) p with
                   | Accepted => [] | Refused _ _ => [fst x] end) /\
  remaining (send_one send p acc x)
  = filter (fun r => negb (String.eqb (fst x) (fst r) && expired send p x))
           (remaining acc).
Proof.
  destruct x as [e sub]. unfold send_one, expired. simpl.
  assert (Hall : forall m : list (string * Subscription),
             filter (fun r => negb (String.eqb e (fst r) && false)) m = m).
  { intros m. induction m as [|y m IHm]; simpl; [reflexivity|].
    rewrite andb_false_r. simpl. now rewrite IHm. }
  destruct (send sub p) as [|code message]; simpl.
  - rewrite map_app, app_nil_r, Hall. auto.
  - rewrite map_app. split; [reflexivity|]. split; [reflexivity|].
    destruct code as [c|]; [destruct (c =? 410)|]; try now rewrite Hall.
    unfold map_delete. apply filter_ext. intros r.
    now rewrite andb_true_r, String.eqb_sym.
Qed.

(** The subscriptions that stay when the entries [l] have been served. *)
Lemma send_fold (send : Subscription -> Payload -> SendResult) (p : Payload)
    (l : list (string * Subscription)) (acc : Sending) :
  map fst (results (fold_left (send_one send p) l acc))
  = map fst (results acc) ++ map fst l /\
  failed (fold_left (send_one send p) l acc)
  = failed acc ++ map fst (filter (refused send p) l) /\
  remaining (fold_left (send_one send p) l acc)
  = filter (fun r => negb (existsb (fun x => String.eqb (fst x) (fst r)
                                             && expired send p x) l))
           (remaining acc).
Proof.
  revert acc. induction l as [|x r IH]; intros acc; cbn [fold_left].
  - simpl. rewrite !app_nil_r. repeat split.
    induction (remaining acc) as [|y m IHm]; simpl; [reflexivity|].
    now rewrite <- IHm.
  - destruct (IH (send_one send p acc x)) as [Hr [Hf Hm]].
    destruct (send_one_step send p acc x) as [Hr1 [Hf1 Hm1]].
    rewrite Hr, Hf, Hm, Hr1, Hf1, Hm1. cbn [map filter existsb].
    split; [now rewrite <- app_assoc|]. split.
    + rewrite <- app_assoc. f_equal. unfold refused.
      now destruct (send (snd x) p).
    + clear. induction (remaining acc) as [|y m IHm]; simpl; [reflexivity|].
      destruct (String.eqb (fst x) (fst y) && expired send p x); simpl;
        [exact IHm|].
      destruct (existsb _ r); simpl; [exact IHm|now rewrite IHm].
Qed.

Lemma own_key_only (q : string * Subscription -> bool)
    (m : list (string * Subscription)) (r : string * Subscription) :
  NoDup (map fst m) -> In r m ->
  existsb (fun x => String.eqb (fst x) (fst r) && q x) m = q r.
Proof.
  induction m as [|x m IH]; simpl; [contradiction|].
  intros Hnd [->|Hin]; inversion Hnd as [|? ? Hnot Hrest]; subst.
  - rewrite String.eqb_refl. simpl. destruct (q r); [reflexivity|]. simpl.
    apply not_true_is_false. intros Hex. apply existsb_exists in Hex as [y [Hy Hq]].
    apply andb_true_iff in Hq as [Hk _]. apply String.eqb_eq in Hk.
    apply Hnot. rewrite <- Hk. now apply in_map.
  - destruct (String.eqb_spec (fst x) (fst r)) as [Hk|Hk]; simpl; [|now apply IH].
    exfalso. apply Hnot. rewrite Hk. now apply in_map.
Qed.

(** X8: the accounting of POST /api/send-notification.  When a VAPID key
    is missing the answer is 503; otherwise, when there is no subscription,
    it is 400; in both cases nothing changes.  Otherwise, and only then,
    every subscription is pushed to once, in order: [results] has one entry
    per subscription, [sent] and [failed] add up to their number, [failed]
    counts the pushes that were refused; the subscriptions kept are exactly
    those whose push was not refused with status 410, [total] is their
    number (counted after the removals), the keys are untouched and
    endpoints stay pairwise distinct. *)
Theorem send_notification_accounts
    (send : Subscription -> Payload -> SendResult) (s : State) (n : Note) :
  distinct s -> accounted send s n.
Proof.
  intros Hd. unfold accounted, send_notification.
  destruct (truthy_key (VAPID_PUBLIC s)) eqn:Hpub; simpl; [|reflexivity].
  destruct (truthy_key (VAPID_PRIVATE s)) eqn:Hpriv; simpl; [|reflexivity].
  destruct (subscriptions s) as [|x m] eqn:Hsubs; [reflexivity|].
  cbv iota. rewrite <- Hsubs.
  replace (List.length (subscriptions s) =? 0)%nat with false
    by (now rewrite Hsubs).
  destruct (send_fold send (payload_of n) (subscriptions s)
              (mkSending [] [] (subscriptions s))) as [Hr [Hf Hm]].
  simpl in Hr, Hf, Hm.
  set (acc := fold_left (send_one send (payload_of n)) (subscriptions s)
                (mkSending [] [] (subscriptions s))) in *.
  assert (Hkept : remaining acc
                  = filter (fun x => negb (expired send (payload_of n) x))
                           (subscriptions s)).
  { rewrite Hm. apply filter_ext_in. intros r Hin.
    now rewrite (own_key_only _ _ r Hd Hin). }
  assert (Hlen : List.length (results acc) = List.length (subscriptions s)).
  { now rewrite <- (length_map fst (results acc)), Hr, length_map. }
  assert (Hfl : List.length (failed acc)
                = List.length (filter (refused send (payload_of n))
                                      (subscriptions s))).
  { now rewrite Hf, length_map. }
  eexists _, _, _, _, _. split; [reflexivity|]. cbn [subscriptions VAPID_PUBLIC
    VAPID_PRIVATE].
  split; [exact Hr|]. split; [|split; [exact Hfl|split; [exact Hkept|]]].
  - rewrite Hlen, Hfl.
    pose proof (filter_length_le (refused send (payload_of n)) (subscriptions s)).
    lia.
  - split; [reflexivity|]. split; [reflexivity|]. split; [reflexivity|].
    unfold distinct. cbn [subscriptions]. rewrite Hkept.
    clear -Hd. unfold distinct in Hd.
    induction (subscriptions s) as [|y l IH]; simpl; [constructor|].
    inversion Hd as [|? ? Hnot Hrest]; subst.
    destruct (negb (expired send (payload_of n) y)); simpl; auto.
    constructor; auto. intros Hin. apply Hnot.
    apply in_map_iff in Hin as [z [Hz Hin]]. apply filter_In in Hin as [Hin _].
    apply in_map_iff. eauto.
Qed.

(** The sample round: the second subscription answers 410. *)
Lemma send_notification_accounts_witness :
  accounted sample_send sample_state (mkNote None None None).
Proof.
  apply send_notification_accounts.
  repeat constructor; simpl; intuition discriminate.
Defined.

(** The sample round, run: one push sent, one failed, one subscription
    left. *)
Example sample_round :
  send_notification sample_send sample_state (mkNote None None None)
  = (mkState (Some "pub") (Some "priv")
             [("https://push.example/a",
               mkSubscription (Some "https://push.example/a") "k1")],
     Pushed [("https://push.example/a", StatusSent);
             ("https://push.example/b", StatusFailed "Gone")] 1 1 1).
Proof. reflexivity. Qed.

End PushFacts.

(** ** app.js: the local store behind the page *)
Module PageFacts.
Import Client SyncSpec PageSpec StoreFacts SyncFacts.

Lemma in_store_delete (t : Task) (k : string) (s : Store) :
  In t (store_delete k s) <-> In t s /\ clientId t <> k.
Proof.
  unfold store_delete. rewrite filter_In.
  destruct (String.eqb_spec (clientId t) k); simpl; intuition congruence.
Qed.

Lemma in_store_put (t x : Task) (s : Store) :
  In t (store_put x s) <-> t = x \/ (In t s /\ clientId t <> clientId x).
Proof.
  unfold store_put. split.
  - intros Hin. apply (Permutation_in _ (store_insert_perm _ _)) in Hin.
    destruct Hin as [<-|Hin]; [now left|right]. now apply in_store_delete.
  - intros Hin.
    apply (Permutation_in _ (Permutation_sym (store_insert_perm _ _))).
    destruct Hin as [->|Hin]; [now left|right]. now apply in_store_delete.
Qed.

Lemma server_not_local (k : string) :
  Js.startsWith k "server_" = true -> Js.startsWith k "local_" = false.
Proof.
  destruct k as [|a k]; simpl; [discriminate|].
  destruct (Ascii.eqb_spec a "s"%char) as [->|]; [reflexivity|discriminate].
Qed.

Lemma insert_visible_sorted (t : Task) (l : list Task) :
  StronglySorted (fun a b => createdAt b <= createdAt a) l ->
  StronglySorted (fun a b => createdAt b <= createdAt a) (insert_newest t l).
Proof.
  induction 1 as [|u r Hr IH Hu]; simpl.
  - repeat constructor.
  - destruct (createdAt u <=? createdAt t) eqn:E.
    + constructor; [constructor; auto|]. constructor; [lia|].
      eapply Forall_impl; [|exact Hu]. simpl. intros; lia.
    + constructor; [exact IH|].
      eapply Permutation_Forall.
      * symmetry. apply visible_insert_perm.
      * constructor; [lia|exact Hu].
Qed.

Lemma visible_sorted (s : Store) :
  StronglySorted (fun a b => createdAt b <= createdAt a) (visible s).
Proof.
  unfold visible. induction (filter _ (store_getAll s)) as [|t r IH]; simpl;
    [constructor|]. now apply insert_visible_sorted.
Qed.

Lemma pending_seen (s : Store) :
  existsb (fun t => dirty t || deleted t || Js.startsWith (clientId t) "local_")
          (visible s)
  = existsb pending s.
Proof.
  apply eq_true_iff_eq. rewrite !existsb_exists. split.
  - intros [t [Hin Ht]]. apply visible_in in Hin as [Hin Hd]. exists t.
    split; [exact Hin|]. unfold pending. rewrite Hd in *. simpl.
    now rewrite orb_false_r in Ht.
  - intros [t [Hin Ht]]. unfold pending in Ht.
    apply andb_true_iff in Ht as [Hd Hp]. exists t. split.
    + apply visible_in. split; [exact Hin|]. now destruct (deleted t).
    + destruct (deleted t); [discriminate|]. now rewrite orb_false_r.
Qed.

#[local] Arguments Js.startsWith : simpl never.

Section WithEnv.

Context {W : Type} `{Env W}.



(** X11: [hasPendingSync] does not see tombstones.  It answers whether
    some record that is not marked deleted is dirty or under a [local_]
    key: its test of [t.deleted] never fires, because the list it searches
    comes from [getAllTasksLocal].  So a store whose only unsynchronised
    records are tombstones is reported as having nothing pending. *)
Theorem hasPendingSync_skips_tombstones (a : App W) :
  hasPendingSync a = (a, Returned (existsb pending (db a))) /\
  ((forall t, In t (db a) -> deleted t = true \/ consistent t) ->
   snd (hasPendingSync a) = Returned false).
Proof.
  assert (Heq : hasPendingSync a = (a, Returned (existsb pending (db a)))).
  { unfold hasPendingSync, bind, getAllTasksLocal, gets, ret. simpl.
    now rewrite pending_seen. }
  split; [exact Heq|]. intros Hall. rewrite Heq. simpl. f_equal.
  apply not_true_is_false. intros Hex. apply existsb_exists in Hex as [t [Hin Hp]].
  unfold pending in Hp. apply andb_true_iff in Hp as [Hd Hp].
  destruct (Hall t Hin) as [Hdel|[Hl [Hdirty _]]].
  - now rewrite Hdel in Hd.
  - now rewrite Hl, Hdirty in Hp.
Qed.

(** X16: what [renderTasks] shows.  One element per listed task, newest
    first; the count shown is the number of elements; an element carries
    the badge Offline exactly when its task is under a [local_] key, and
    OK exactly when it is neither that nor dirty; the store and the
    requests are untouched. *)
Theorem render_newest_first (a : App W) :
  let a' := fst (renderTasks a) in
  map el_task (tasksList a') = visible (db a) /\
  taskCount a' = List.length (tasksList a') /\
  elements_newest_first (tasksList a') /\
  Forall (fun el =>
            (el_badge el = BadgeOffline
             <-> Js.startsWith (clientId (el_task el)) "local_" = true) /\
            (el_badge el = BadgeOK
             <-> Js.startsWith (clientId (el_task el)) "local_" = false
                 /\ dirty (el_task el) = false) /\
            el_checked el = completed (el_task el))
         (tasksList a') /\
  db a' = db a /\ calls a' = calls a.
Proof.
  simpl. split; [|split; [|split; [|split]]].
  - rewrite map_map. simpl. apply map_id.
  - now rewrite length_map.
  - unfold elements_newest_first.
    pose proof (visible_sorted (db a)) as Hs.
    induction Hs as [|t r Hr IH Ht]; simpl; constructor; auto.
    apply Forall_forall. intros el Hel. apply in_map_iff in Hel as [u [<- Hu]].
    simpl. rewrite Forall_forall in Ht. auto.
  - apply Forall_forall. intros el Hel. apply in_map_iff in Hel as [t [<- _]].
    simpl. destruct (Js.startsWith (clientId t) "local_"), (dirty t);
      repeat split; try discriminate; try reflexivity; intros []; discriminate.
  - auto.
Qed.

End WithEnv.

End PageFacts.

(** ** app.js: more on syncPendingTasks *)
Module SyncMore.
Import Client SyncSpec PageSpec StoreFacts SyncFacts PageFacts.

#[local] Arguments Js.startsWith : simpl never.

Section WithEnv.

Context {W : Type} `{Env W}.

Lemma changes_ok (l : list Task) (n : nat) (a : App W) :
  store_ok (db a) -> store_ok (db (fst (for_of l push_change n a))).
Proof.
  apply for_of_inv with (P := fun a' => store_ok (db a')).
  intros t Ht m b Hb. rewrite push_change_eq. simpl. destruct (deleted t).
  - destruct (fetch_delete (world b) (serverId_of (clientId t)))
      as [w [msg|status body]]; simpl; [exact Hb|].
    destruct (response_ok status); simpl; [|exact Hb]. now apply store_delete_ok.
  - destruct (dirty t); [|exact Hb].
    destruct (fetch_put (world b) (serverId_of (clientId t)) (body_of t))
      as [w [msg|status body]]; simpl; [exact Hb|].
    destruct (response_ok status); simpl; [|exact Hb].
    destruct body as [msg| |data]; simpl; [exact Hb|exact Hb|].
    destruct (ud_ok data); simpl; [|exact Hb]. now apply store_put_ok.
Qed.

Lemma pull_ok (a : App W) : store_ok (db a) -> store_ok (db (fst (pull a))).
Proof.
  intros Hok. rewrite pull_eq.
  destruct (fetch_get (world a)) as [w [m|status [m| |data]]]; simpl;
    [exact Hok|exact Hok|exact Hok|].
  destruct (response_ok status); [|exact Hok].
  destruct (if ld_ok data then ld_tasks data else None) as [tasks|]; [|exact Hok].
  simpl. apply for_of_inv with (P := fun a' => store_ok (db a')); [|exact Hok].
  intros r Hr [] b Hb. rewrite merge_one_eq. simpl.
  destruct (match store_get _ (db b) with None => true | Some e => negb (dirty e) end);
    simpl; [|exact Hb]. now apply store_put_ok.
Qed.

(** X12: syncPendingTasks keeps one record per key.  Whatever the server
    answers and however the call ends, a store in which no two records
    share a clientId is still such a store afterwards. *)
Theorem sync_keeps_one_record_per_key (a : App W) :
  store_ok (db a) -> store_ok (db (fst (syncPendingTasks a))).
Proof.
  intros Hok. destruct (onLine (world a)) eqn:Hon.
  2:{ now rewrite sync_offline. }
  rewrite sync_eq by exact Hon.
  pose proof (creates_ok (filter is_local (visible (db a))) 0%nat a Hok) as H1.
  destruct (for_of _ push_create 0%nat a) as [a1 [n1|e]]; simpl in *; [|exact H1].
  unfold after_phase1.
  pose proof (changes_ok (filter is_server (visible (db a1))) n1 a1 H1) as H2.
  destruct (for_of _ push_change n1 a1) as [a2 [n2|e]]; simpl in *; [|exact H2].
  now apply pull_ok.
Qed.

Lemma sync_evolves (a : App W) : evolves (db a) (db (fst (syncPendingTasks a))).
Proof.
  destruct (onLine (world a)) eqn:Hon.
  - rewrite sync_eq by exact Hon. apply tail_evolves. apply local_tasks_local.
  - rewrite sync_offline by exact Hon. apply evolves_refl.
Qed.

(** X13: what syncPendingTasks never does to the store.  For every key:
    a record that is dirty afterwards is the very record that was there
    before (the call never marks anything dirty); a key that held a record
    and is not a [local_] key still holds one (only [local_] records are
    ever removed); and a key that held nothing and is not a [server_] key
    still holds nothing (only [server_] records are ever added). *)
Theorem sync_never_dirties (a : App W) (k : string) :
  let before := db a in
  let after := db (fst (syncPendingTasks a)) in
  (forall t, store_get k after = Some t -> dirty t = true ->
             store_get k before = Some t) /\
  (Js.startsWith k "local_" = false ->
   store_get k before <> None -> store_get k after <> None) /\
  (Js.startsWith k "server_" = false ->
   store_get k before = None -> store_get k after = None).
Proof.
  intros before after. pose proof (sync_evolves a k) as Hev.
  fold before in Hev. fold after in Hev.
  destruct Hev as [Heq|[[Hs [t [Ht Hd]]]|[Hl Hn]]].
  - rewrite Heq. repeat split; auto.
  - repeat split.
    + intros u Hu Hdu. rewrite Ht in Hu. injection Hu as <-. congruence.
    + intros _ _. now rewrite Ht.
    + intros Hns. now rewrite Hs in Hns.
  - repeat split.
    + intros u Hu. now rewrite Hn in Hu.
    + intros Hnl. now rewrite Hl in Hnl.
    + auto.
Qed.

(** *** After a run that returned *)

Lemma creates_settle (l : list Task) (n m : nat) (a a' : App W) :
  honest ->
  for_of l push_create n a = (a', Returned m) ->
  forall r, In r (db a') ->
            settled r \/ (In r (db a) /\ ~ In (clientId r) (map clientId l)).
Proof.
  intros [Hpost _]. revert n a.
  induction l as [|x l IH]; intros n a Hrun r Hr; simpl in Hrun.
  - injection Hrun as <- _. right. split; [exact Hr|intros []].
  - unfold bind in Hrun. rewrite push_create_eq in Hrun.
    destruct (fetch_post (world a) (body_of x)) as [w [msg|status body]] eqn:Hf;
      simpl in Hrun; [discriminate|].
    destruct (response_ok status) eqn:Hok; [|discriminate].
    destruct (Hpost _ _ _ _ _ Hf Hok) as [data [-> [Hdok Htask]]].
    rewrite Hdok in Hrun.
    destruct (cd_task data) as [srv|]; [|contradiction]. simpl in Hrun.
    destruct (IH _ _ Hrun r Hr) as [Hset|[Hin Hnot]]; [now left|].
    simpl in Hin. apply in_store_put in Hin as [->|[Hin Hne]].
    + left. repeat split.
    + apply in_store_delete in Hin as [Hin Hnx]. right. split; [exact Hin|].
      simpl. intros [Heq|Hl]; [congruence|contradiction].
Qed.

Lemma changes_settle (l : list Task) (n m : nat) (a a' : App W) :
  honest ->
  Forall (fun t => deleted t = false /\ is_server t = true) l ->
  for_of l push_change n a = (a', Returned m) ->
  forall r, In r (db a') ->
            settled r \/
            (In r (db a) /\ ~ In (clientId r) (map clientId (filter dirty l))).
Proof.
  intros [_ Hput] Hl. revert n a.
  induction Hl as [|x l [Hxd Hxs] Hl IH]; intros n a Hrun r Hr; simpl in Hrun.
  - injection Hrun as <- _. right. split; [exact Hr|intros []].
  - unfold bind in Hrun. rewrite push_change_eq in Hrun. simpl in Hrun.
    rewrite Hxd in Hrun. simpl. destruct (dirty x) eqn:Hdx.
    + destruct (fetch_put (world a) (serverId_of (clientId x)) (body_of x))
        as [w [msg|status body]] eqn:Hf; simpl in Hrun; [discriminate|].
      destruct (response_ok status) eqn:Hok; [|discriminate].
      destruct (Hput _ _ _ _ _ _ Hf Hok) as [data [-> Hdok]].
      rewrite Hdok in Hrun. simpl in Hrun.
      destruct (IH _ _ Hrun r Hr) as [Hset|[Hin Hnot]]; [now left|].
      simpl in Hin. apply in_store_put in Hin as [->|[Hin Hne]].
      * left. repeat split; auto.
      * right. split; [exact Hin|]. simpl in *.
        intros [Heq|Hin']; [congruence|contradiction].
    + destruct (IH _ _ Hrun r Hr) as [Hset|[Hin Hnot]]; [now left|now right].
Qed.

Lemma pull_settles (a : App W) (r : Task) :
  In r (db (fst (pull a))) -> settled r \/ In r (db a).
Proof.
  rewrite pull_eq.
  destruct (fetch_get (world a)) as [w [m|status [m| |data]]]; simpl;
    [now right|now right|now right|].
  destruct (response_ok status); [|now right].
  destruct (if ld_ok data then ld_tasks data else None) as [tasks|]; [|now right].
  simpl. revert r.
  apply for_of_inv
    with (P := fun a' => forall r, In r (db a') -> settled r \/ In r (db a)).
  - intros srv Hsrv [] b Hb r. rewrite merge_one_eq. simpl.
    destruct (match store_get _ (db b) with None => true | Some e => negb (dirty e) end);
      simpl; [|apply Hb].
    intros Hin. apply in_store_put in Hin as [->|[Hin _]]; [|now apply Hb].
    left. repeat split.
  - intros r Hr. now right.
Qed.

Lemma settled_consistent (t : Task) : settled t -> consistent t.
Proof.
  intros [Hd [Hx Hs]]. repeat split; auto. now apply server_not_local.
Qed.

(** X14: a run that returns leaves nothing pending, when the server is
    honest.  Online, on a store without tombstones whose records are all
    under [local_] or [server_] keys, if syncPendingTasks returns (no push
    failed) then every record is afterwards under a [server_] key, not
    dirty and not marked deleted, and [hasPendingSync] answers false; so
    the next run finds a consistent store. *)
Theorem sync_settles (a : App W) (n : nat) :
  honest ->
  onLine (world a) = true ->
  Forall syncable (db a) ->
  snd (syncPendingTasks a) = Returned n ->
  Forall settled (db (fst (syncPendingTasks a))) /\
  Forall consistent (db (fst (syncPendingTasks a))) /\
  snd (hasPendingSync (fst (syncPendingTasks a))) = Returned false.
Proof.
  intros Hh Hon Hall Hret. rewrite Forall_forall in Hall.
  assert (Hset : Forall settled (db (fst (syncPendingTasks a)))).
  { rewrite sync_eq in Hret |- * by exact Hon.
    destruct (for_of (filter is_local (visible (db a))) push_create 0%nat a)
      as [a1 [n1|e]] eqn:H1; [|discriminate].
    unfold after_phase1 in *.
    destruct (for_of (filter is_server (visible (db a1))) push_change n1 a1)
      as [a2 [n2|e]] eqn:H2; [|discriminate].
    simpl. apply Forall_forall. intros r Hr.
    destruct (pull_settles a2 r Hr) as [Hs|Hr2]; [exact Hs|].
    destruct (changes_settle _ _ _ _ _ Hh (server_tasks_live (db a1)) H2 r Hr2)
      as [Hs|[Hr1 Hnd]]; [exact Hs|].
    assert (Hclean : deleted r = false ->
                     Js.startsWith (clientId r) "server_" = true -> settled r).
    { intros Hd Hs. repeat split; auto.
      destruct (dirty r) eqn:Hdr; [|reflexivity]. exfalso. apply Hnd.
      apply in_map. apply filter_In. split; [|exact Hdr].
      apply filter_In. split; [|exact Hs].
      apply visible_in. auto. }
    destruct (creates_settle _ _ _ _ _ Hh H1 r Hr1) as [Hs|[Hr0 Hnl]]; [exact Hs|].
    destruct (Hall r Hr0) as [Hd [Hl|Hs]]; [|now apply Hclean].
    exfalso. apply Hnl. apply in_map. apply filter_In. split.
    - apply visible_in. auto.
    - unfold is_local. now rewrite Hd, Hl. }
  assert (Hcons : Forall consistent (db (fst (syncPendingTasks a)))).
  { eapply Forall_impl; [|exact Hset]. apply settled_consistent. }
  split; [exact Hset|]. split; [exact Hcons|].
  unfold hasPendingSync, bind, getAllTasksLocal, gets, ret. simpl. f_equal.
  rewrite pending_seen. apply not_true_is_false. intros Hex.
  apply existsb_exists in Hex as [t [Hin Hp]].
  rewrite Forall_forall in Hcons. destruct (Hcons t Hin) as [Hl [Hd Hx]].
  unfold pending in Hp. now rewrite Hl, Hd, Hx in Hp.
Qed.

(** *** The change count *)

Lemma for_of_counts {A} (body : A -> nat -> M W nat) (l : list A) :
  (forall x n a, exists evs,
     calls (fst (body x n a)) = calls a ++ evs /\
     forall m, snd (body x n a) = Returned m ->
               m = (n + List.length (filter applied evs))%nat) ->
  forall n a, exists evs,
    calls (fst (for_of l body n a)) = calls a ++ evs /\
    forall m, snd (for_of l body n a) = Returned m ->
              m = (n + List.length (filter applied evs))%nat.
Proof.
  intros Hstep. induction l as [|x r IH]; intros n a; simpl.
  - exists []. rewrite app_nil_r. split; [reflexivity|].
    intros m [= <-]. simpl. lia.
  - unfold bind. destruct (Hstep x n a) as [evs1 [Hc1 Hn1]].
    destruct (body x n a) as [a1 [m1|e]]; simpl in *.
    + destruct (IH m1 a1) as [evs2 [Hc2 Hn2]].
      exists (evs1 ++ evs2). rewrite Hc2, Hc1, app_assoc. split; [reflexivity|].
      intros m Hm. rewrite filter_app, length_app.
      rewrite (Hn2 m Hm), (Hn1 m1 eq_refl). lia.
    + exists evs1. split; [exact Hc1|]. intros m [=].
Qed.

Lemma push_create_counts (x : Task) (n : nat) (a : App W) :
  exists evs,
    calls (fst (push_create x n a)) = calls a ++ evs /\
    forall m, snd (push_create x n a) = Returned m ->
              m = (n + List.length (filter applied evs))%nat.
Proof.
  rewrite push_create_eq.
  destruct (fetch_post (world a) (body_of x)) as [w r].
  exists [CallCreate (clientId x) (body_of x) r].
  destruct r as [msg|status body]; simpl.
  - split; [reflexivity|]. intros m [=].
  - destruct (response_ok status); simpl; [|split; [reflexivity|intros m [=]]].
    destruct body as [msg| |data]; simpl;
      [split; [reflexivity|intros m [=]]|split; [reflexivity|intros m [=]]|].
    destruct (if cd_ok data then cd_task data else None); simpl;
      (split; [reflexivity|]); intros m [= <-]; simpl; lia.
Qed.

Lemma push_change_counts (x : Task) (n : nat) (a : App W) :
  exists evs,
    calls (fst (push_change x n a)) = calls a ++ evs /\
    forall m, snd (push_change x n a) = Returned m ->
              m = (n + List.length (filter applied evs))%nat.
Proof.
  rewrite push_change_eq. simpl. destruct (deleted x).
  - destruct (fetch_delete (world a) (serverId_of (clientId x))) as [w r].
    exists [CallDelete (clientId x) (serverId_of (clientId x)) r].
    destruct r as [msg|status body]; simpl.
    + split; [reflexivity|]. intros m [=].
    + destruct (response_ok status); simpl;
        (split; [reflexivity|]); intros m [= <-]; simpl; lia.
  - destruct (dirty x).
    2:{ exists []. simpl. rewrite app_nil_r. split; [reflexivity|].
        intros m [= <-]. lia. }
    destruct (fetch_put (world a) (serverId_of (clientId x)) (body_of x)) as [w r].
    exists [CallUpdate (clientId x) (serverId_of (clientId x)) (body_of x) r].
    destruct r as [msg|status body]; simpl.
    + split; [reflexivity|]. intros m [=].
    + destruct (response_ok status); simpl; [|split; [reflexivity|intros m [=]]].
      destruct body as [msg| |data]; simpl;
        [split; [reflexivity|intros m [=]]|split; [reflexivity|intros m [=]]|].
      destruct (ud_ok data); simpl;
        (split; [reflexivity|]); intros m [= <-]; simpl; lia.
Qed.

(** X17: what the change count counts.  When syncPendingTasks returns
    [n], [n] is the number of requests of the run that were applied: POSTs
    answered OK with a task and PUTs answered OK with [ok].  The records
    that phase 3 takes over from the server are not counted, however many
    they are. *)
Theorem sync_counts_pushes (a : App W) (n : nat) :
  onLine (world a) = true ->
  snd (syncPendingTasks a) = Returned n ->
  exists evs,
    calls (fst (syncPendingTasks a)) = calls a ++ evs /\
    n = List.length (filter applied evs).
Proof.
  intros Hon. rewrite sync_eq by exact Hon.
  destruct (for_of_counts push_create (filter is_local (visible (db a)))
              push_create_counts 0%nat a) as [evs1 [Hc1 Hn1]].
  destruct (for_of _ push_create 0%nat a) as [a1 [n1|e]]; simpl in *;
    [|discriminate].
  unfold after_phase1.
  destruct (for_of_counts push_change (filter is_server (visible (db a1)))
              push_change_counts n1 a1) as [evs2 [Hc2 Hn2]].
  destruct (for_of _ push_change n1 a1) as [a2 [n2|e]]; simpl in *;
    [|discriminate].
  intros [= <-].
  exists (evs1 ++ evs2 ++ [CallList (snd (fetch_get (world a2)))]).
  rewrite pull_calls, Hc2, Hc1, <- !app_assoc. split; [reflexivity|].
  rewrite !filter_app, !length_app. simpl.
  rewrite (Hn2 n2 eq_refl), (Hn1 n1 eq_refl). lia.
Qed.

End WithEnv.

End SyncMore.

(** ** app.js: keys and server ids *)
Module KeyFacts.
Import Client PageSpec.













End KeyFacts.

(** ** The page against server.js: more concrete runs *)
Module MoreScenarios.
Import Client SyncSpec PageSpec Samples.

(** server.js answers a POST with 201 only with the task created, and a
    PUT with 200 only with [ok]. *)
Lemma wire_honest : honest (W := Wire.Net).
Proof.
  split.
  - intros w b w' status body Hf Hok. simpl in Hf. unfold Wire.exchange in Hf.
    assert (Hpost : forall now s,
               let r := snd (Server.post_api_tasks now s b) in
               response_ok (Server.status_of r) = true ->
               Server.ok_of r = true /\
               match r with Server.Created t => Some t | _ => None end <> None).
    { intros now s. unfold Server.post_api_tasks.
      destruct (Server.b_title b) as [t|]; simpl; [|discriminate].
      destruct (negb (Js.truthy t)); simpl; [discriminate|].
      destruct (Js.trim_of t) as [trimmed|]; simpl; [|discriminate].
      destruct (String.eqb trimmed ""); simpl; [discriminate|].
      destruct (Server.description_of (Server.b_description b)); simpl;
        [|discriminate].
      intros _. split; [reflexivity|discriminate]. }
    destruct (Wire.outages w) as [|[] rest]; cbn [Server.handle] in Hf.
    + specialize (Hpost (Wire.clock w) (Wire.server w)).
      destruct (Server.post_api_tasks (Wire.clock w) (Wire.server w) b) as [s r].
      injection Hf as _ <- <-. eexists. split; [reflexivity|]. now apply Hpost.
    + discriminate.
    + specialize (Hpost (Wire.clock w) (Wire.server w)).
      destruct (Server.post_api_tasks (Wire.clock w) (Wire.server w) b) as [s r].
      injection Hf as _ <- <-. eexists. split; [reflexivity|]. now apply Hpost.
  - intros w i b w' status body Hf Hok. simpl in Hf. unfold Wire.exchange in Hf.
    assert (Hput : forall now s,
               let r := snd (Server.put_api_tasks now s i b) in
               response_ok (Server.status_of r) = true -> Server.ok_of r = true).
    { intros now s. unfold Server.put_api_tasks.
      destruct (Server.find_task i (Server.TASKS s)) as [task|]; simpl;
        [|discriminate].
      destruct (snd (Server.apply_body now b task)); simpl;
        [reflexivity|discriminate]. }
    destruct (Wire.outages w) as [|[] rest]; cbn [Server.handle] in Hf.
    + specialize (Hput (Wire.clock w) (Wire.server w)).
      destruct (Server.put_api_tasks (Wire.clock w) (Wire.server w) i b) as [s r].
      injection Hf as _ <- <-. eexists. split; [reflexivity|]. now apply Hput.
    + discriminate.
    + specialize (Hput (Wire.clock w) (Wire.server w)).
      destruct (Server.put_api_tasks (Wire.clock w) (Wire.server w) i b) as [s r].
      injection Hf as _ <- <-. eexists. split; [reflexivity|]. now apply Hput.
Qed.

Lemma shopping_ok : store_ok shopping.
Proof. repeat constructor; simpl; intuition discriminate. Qed.

Lemma shopping_syncable : Forall syncable shopping.
Proof. repeat constructor. Qed.


(** The three tasks created offline, over the network that loses the
    second request. *)
Lemma sync_keeps_one_record_per_key_witness :
  store_ok (db (fst (syncPendingTasks (Wire.page net_drop2 shopping)))).
Proof.
  apply (SyncMore.sync_keeps_one_record_per_key (Wire.page net_drop2 shopping)).
  exact shopping_ok.
Defined.

(** The three tasks created offline, over the reliable network. *)
Lemma sync_settles_witness :
  Forall settled (db (fst (syncPendingTasks (Wire.page net0 shopping)))) /\
  Forall consistent (db (fst (syncPendingTasks (Wire.page net0 shopping)))) /\
  snd (hasPendingSync (fst (syncPendingTasks (Wire.page net0 shopping))))
  = Returned false.
Proof.
  apply (SyncMore.sync_settles (Wire.page net0 shopping) 3).
  - exact wire_honest.
  - reflexivity.
  - exact shopping_syncable.
  - reflexivity.
Defined.

Lemma sync_counts_pushes_witness :
  exists evs,
    calls (fst (syncPendingTasks (Wire.page net0 shopping))) = [] ++ evs /\
    3%nat = List.length (filter applied evs).
Proof.
  apply (SyncMore.sync_counts_pushes (Wire.page net0 shopping) 3); reflexivity.
Defined.


(** The run of the three tasks: three creates, then five records pulled,
    count 3. *)
Example three_creates :
  let r := syncPendingTasks (Wire.page net0 shopping) in
  snd r = Returned 3%nat /\
  map clientId (db (fst r))
  = ["server_1"; "server_2"; "server_3"; "server_4"; "server_5"] /\
  map serverId_of (map clientId (db (fst r)))
  = [Some 1; Some 2; Some 3; Some 4; Some 5].
Proof. vm_compute. repeat split. Qed.

End MoreScenarios.


(** ** The service worker's caches *)
Module WorkerFacts.
Import Worker.

Lemma cache_get_set_same u r c : cache_get u (cache_set u r c) = Some r.
Proof.
  induction c as [|[u' r'] c IH]; simpl.
  - now rewrite String.eqb_refl.
  - destruct (String.eqb u' u) eqn:E; simpl.
    + now rewrite String.eqb_refl.
    + now rewrite E.
Qed.

Lemma match_url_cached u r name cs :
  (forall n c, In (n, c) cs -> n <> name -> cache_get u c = None) ->
  match_url u (with_cache name (cache_set u r) cs) = Some r.
Proof.
  induction cs as [|[n c] cs IH]; intros H; simpl.
  - now rewrite String.eqb_refl.
  - destruct (String.eqb n name) eqn:E; simpl.
    + now rewrite cache_get_set_same.
    + rewrite (H n c).
      * apply IH. intros n' c' Hin. apply H. now right.
      * now left.
      * now apply String.eqb_neq.
Qed.

Lemma match_url_none u cs :
  match_url u cs = None -> forall n c, In (n, c) cs -> cache_get u c = None.
Proof.
  induction cs as [|[n' c'] cs IH]; simpl; intros H n c Hin; [easy|].
  destruct (cache_get u c') eqn:E; [discriminate|].
  destruct Hin as [Heq | Hin].
  - now inversion Heq; subst.
  - now apply (IH H n c).
Qed.

Lemma cache_set_ok u r c :
  ok r = true ->
  Forall (fun x => ok (snd x) = true) c ->
  Forall (fun x => ok (snd x) = true) (cache_set u r c).
Proof.
  intros Hr. induction 1 as [|[u' r'] c Hx Hc IH]; simpl.
  - now repeat constructor.
  - destruct (String.eqb u' u); constructor; auto.
Qed.

Lemma with_cache_ok name request r cs :
  ok r = true -> only_ok cs ->
  only_ok (with_cache name (cache_put request r) cs).
Proof.
  intros Hr. unfold only_ok, cache_put.
  induction 1 as [|[n c] cs Hc Hcs IH]; simpl.
  - constructor; [|constructor]. simpl.
    destruct (storable request r); [|constructor].
    now repeat constructor.
  - destruct (String.eqb n name); constructor; auto; simpl.
    destruct (storable request r); [|exact Hc].
    now apply cache_set_ok.
Qed.

Lemma find_cache_kept name keep cs :
  keep name = true ->
  find_cache name (filter (fun e => keep (fst e)) cs) = find_cache name cs.
Proof.
  intros Hk. induction cs as [|[n c] cs IH]; simpl; [easy|].
  destruct (keep n) eqn:E; simpl.
  - now rewrite IH.
  - destruct (String.eqb n name) eqn:En; [|exact IH].
    apply String.eqb_eq in En. congruence.
Qed.

(** X18.  The worker caches nothing but OK responses: if every cached
    response is OK before a fetch event, so it is after it, whatever the
    request is and whatever the network answers. *)
Theorem fetch_caches_only_ok net request st :
  only_ok (caches st) -> only_ok (caches (fst (on_fetch net request st))).
Proof.
  intros H. unfold on_fetch, networkFirstStrategy, cacheFirstStrategy.
  destruct (Js.startsWith (pathname request) "/api/").
  - destruct (net request) as [r|]; simpl; [|exact H].
    destruct (ok r) eqn:Hr; simpl; [|exact H].
    now apply with_cache_ok.
  - destruct (caches_match request (caches st)); simpl; [exact H|].
    destruct (net request) as [r|]; simpl.
    + destruct (ok r) eqn:Hr; simpl; [|exact H].
      destruct (String.eqb (method request) "GET"); simpl; [|exact H].
      now apply with_cache_ok.
    + destruct (String.eqb (mode request) "navigate"); exact H.
Qed.

Lemma fetch_caches_only_ok_witness :
  only_ok (caches (fst (on_fetch
                          (fun _ => Some (mkResponse 200 false (Network_body "[]")))
                          (mkRequest "/api/tasks" "/api/tasks" "GET" "cors")
                          (mkState [] [])))).
Proof.
  apply fetch_caches_only_ok. constructor.
Defined.

Lemma storable_get (request : Request) (r : Response) :
  storable request r = true -> method request = "GET".
Proof.
  unfold storable. intros Hs.
  apply andb_true_iff in Hs as [Hs _]. apply andb_true_iff in Hs as [Hs _].
  apply andb_true_iff in Hs as [Hs _]. now apply String.eqb_eq.
Qed.

(** X19.  Network first, then cache: once a request was answered with an
    OK response that [cache.put] accepts (a GET over http(s), a status
    other than 206, no star in [Vary]), the same request made while the
    network is down is answered with that response, provided no cache
    under another name holds the URL. *)
Theorem network_first_round_trip net request cacheName st r :
  storable request r = true ->
  net request = Some r ->
  ok r = true ->
  (forall n c, In (n, c) (caches st) -> n <> cacheName ->
               cache_get (url request) c = None) ->
  snd (networkFirstStrategy down request cacheName
         (fst (networkFirstStrategy net request cacheName st))) = r.
Proof.
  intros Hs Hn Hr Hc. pose proof (storable_get _ _ Hs) as Hm.
  unfold networkFirstStrategy, down, caches_match, cache_put.
  rewrite Hn, Hr, Hm, Hs. simpl.
  now rewrite match_url_cached.
Qed.

Lemma network_first_round_trip_witness :
  snd (networkFirstStrategy down
         (mkRequest "/api/tasks" "/api/tasks" "GET" "cors") API_CACHE
         (fst (networkFirstStrategy
                 (fun _ => Some (mkResponse 200 false (Network_body "[]")))
                 (mkRequest "/api/tasks" "/api/tasks" "GET" "cors") API_CACHE
                 (mkState [(CACHE_NAME,
                            [("/app", mkResponse 200 false (Network_body "app"))])]
                          []))))
  = mkResponse 200 false (Network_body "[]").
Proof.
  apply (network_first_round_trip
           (fun _ => Some (mkResponse 200 false (Network_body "[]")))).
  - reflexivity.
  - reflexivity.
  - reflexivity.
  - intros n c [Heq | []] _. now inversion Heq.
Defined.

(** What [cache.put] rejects is not served later: a GET answered with
    status 206 is handed on, but the same request made while the network
    is down gets the worker's own 503. *)
Example partial_content_is_not_cached :
  let request := mkRequest "/api/tasks" "/api/tasks" "GET" "cors" in
  let r := mkResponse 206 false (Network_body "[") in
  let first := networkFirstStrategy (fun _ => Some r) request API_CACHE
                                    (mkState [] []) in
  ok r = true /\ snd first = r /\
  snd (networkFirstStrategy down request API_CACHE (fst first)) = offline_response.
Proof. repeat split. Qed.

(** X20.  Cache first: a request that was not cached and that the network
    answers with an OK response that [cache.put] accepts is cached, so that
    the next time the worker answers it with that response without asking
    the network, and without changing the caches. *)
Theorem cache_first_round_trip net net' request st r :
  storable request r = true ->
  caches_match request (caches st) = None ->
  net request = Some r ->
  ok r = true ->
  let st' := fst (cacheFirstStrategy net request st) in
  snd (cacheFirstStrategy net request st) = Answer r /\
  cacheFirstStrategy net' request st' = (st', Answer r).
Proof.
  intros Hs Hc Hn Hr. pose proof (storable_get _ _ Hs) as Hm.
  unfold cacheFirstStrategy.
  rewrite Hc, Hn, Hr, Hm. simpl. split; [reflexivity|].
  unfold caches_match, cache_put in *. rewrite Hm in *. rewrite Hs. simpl in *.
  rewrite match_url_cached; [reflexivity|].
  intros n c Hin _. now apply (match_url_none _ _ Hc n c).
Qed.

Lemma cache_first_round_trip_witness :
  let request := mkRequest "/public/extra.css" "/public/extra.css" "GET" "no-cors" in
  let r := mkResponse 200 false (Network_body "body{}") in
  let st' := fst (cacheFirstStrategy (fun _ => Some r) request (mkState [] [])) in
  snd (cacheFirstStrategy (fun _ => Some r) request (mkState [] [])) = Answer r /\
  cacheFirstStrategy down request st' = (st', Answer r).
Proof.
  apply cache_first_round_trip; reflexivity.
Defined.

(** X21.  Activation deletes every cache but the worker's two, and leaves
    those two as they were. *)
Theorem activate_keeps_current st :
  Forall (fun e => fst e = CACHE_NAME \/ fst e = API_CACHE)
         (caches (on_activate st)) /\
  find_cache CACHE_NAME (caches (on_activate st)) = find_cache CACHE_NAME (caches st) /\
  find_cache API_CACHE (caches (on_activate st)) = find_cache API_CACHE (caches st).
Proof.
  unfold on_activate; simpl. split; [|split].
  - apply Forall_forall. intros [n c] Hin. apply filter_In in Hin as [_ Hk].
    simpl in *.
    destruct (String.eqb n CACHE_NAME) eqn:E1.
    + left. now apply String.eqb_eq.
    + destruct (String.eqb n API_CACHE) eqn:E2; [|discriminate].
      right. now apply String.eqb_eq.
  - now apply (find_cache_kept CACHE_NAME
      (fun n => negb (negb (String.eqb n CACHE_NAME) && negb (String.eqb n API_CACHE)))).
  - now apply (find_cache_kept API_CACHE
      (fun n => negb (negb (String.eqb n CACHE_NAME) && negb (String.eqb n API_CACHE)))).
Qed.

End WorkerFacts.
